(** * Smart attendance system: recognition, cooldown and durable recording

    A shallow embedding of the core of the repository:
    - [config.py]: the tunable constants;
    - [face_recognition_model.py]: the store of known encodings and names,
      [add_person], [remove_person], [get_known_names], [load_encodings],
      [save_encodings] and the per-face body of [recognize_faces];
    - [database.py]: [mark_attendance], [is_recent_attendance], [log_to_csv];
    - [attendance_system.py]: [process_attendance] and the cooldown map.

    Numbers.  Python floats (distances, confidences, [time.time()]) are
    idealised as exact rationals [Q]; equality of computed numbers is [Qeq].
    [datetime.now()] is a count of microseconds (a [Z]); the text produced by
    [strftime('%Y-%m-%d %H:%M:%S')] is represented by the count of whole
    seconds, whose numeric order is the lexicographic order of the text. *)

From Stdlib Require Import QArith Lqa ZArith Lia.
From stdpp Require Import gmap strings list fin_maps.
From stdpp Require Import sorting pretty.

Local Open Scope Q_scope.

(** ** Exceptions and results *)

Inductive exn :=
  | IndexError
  | OperationalError
  | OSError.

Inductive result (A : Type) :=
  | Ok (a : A)
  | Raise (e : exn).
Arguments Ok {A} a.
Arguments Raise {A} e.

#[global] Instance result_ret : MRet result := fun _ a => Ok a.
#[global] Instance result_bind : MBind result := fun _ _ k r =>
  match r with
  | Ok a => k a
  | Raise e => Raise e
  end.

(** ** config.py *)

Module Config.
Definition FACE_RECOGNITION_TOLERANCE : Q := 6 # 10.
Definition ATTENDANCE_COOLDOWN_MINUTES : Q := 5.
Definition CONFIDENCE_THRESHOLD : Q := 6 # 10.
End Config.

(** ** Comparisons on rationals, as booleans *)

Definition Qlt_bool (x y : Q) : bool := negb (Qle_bool y x).

(** ** numpy.argmin

    [np.argmin] returns the index of the first occurrence of the minimum.
    The scan keeps the best index so far and replaces it only by a strictly
    smaller value.  On an empty array numpy raises; [recognize_faces] calls
    it only under [len(face_distances) > 0], and [argmin [] = 0] is never
    used. *)

Fixpoint argmin_from (l : list Q) (i best_i : nat) (best : Q) : nat :=
  match l with
  | [] => best_i
  | x :: r =>
      if Qlt_bool x best then argmin_from r (S i) i x
      else argmin_from r (S i) best_i best
  end.

Definition argmin (l : list Q) : nat :=
  match l with
  | [] => O
  | x :: r => argmin_from r 1 0 x
  end.

(** ** face_recognition_model.py *)

Definition Unknown : string := "Unknown".

Section FaceRecognitionModel.

(** The encoder and its metric are external ([face_recognition]):
    an encoding is an opaque value, [dist] the Euclidean distance. *)
Context {Encoding : Type}.
Variable dist : Encoding -> Encoding -> Q.

Record FaceRecognitionModel := {
  known_encodings : list Encoding;
  known_names : list string
}.

(** [face_recognition.face_distance(known, e)]: the distance of every known
    encoding to [e], in order. *)
Definition face_distance (known : list Encoding) (e : Encoding) : list Q :=
  map (fun k => dist k e) known.

(** [face_recognition.compare_faces(known, e, tolerance)]:
    [list(face_distance(known, e) <= tolerance)]. *)
Definition compare_faces (known : list Encoding) (e : Encoding)
    (tolerance : Q) : list bool :=
  map (fun d => Qle_bool d tolerance) (face_distance known e).

(** The body of the loop of [recognize_faces] (lines 93-112), for one face
    encoding: the result is the name and the confidence appended to
    [face_names] and [face_confidences].  [self.known_names[i]] raises
    [IndexError] when [i] is out of range. *)
Definition recognize_face (m : FaceRecognitionModel) (tolerance : Q)
    (face_encoding : Encoding) : result (string * Q) :=
  let matches := compare_faces (known_encodings m) face_encoding tolerance in
  let face_distances := face_distance (known_encodings m) face_encoding in
  if (0 <? length face_distances)%nat then
    let best_match_index := argmin face_distances in
    match matches !! best_match_index with
    | None => Raise IndexError
    | Some true =>
        match known_names m !! best_match_index,
              face_distances !! best_match_index with
        | Some name, Some d => Ok (name, 1 - d)
        | _, _ => Raise IndexError
        end
    | Some false => Ok (Unknown, 0)
    end
  else Ok (Unknown, 0).

(** [recognize_faces], after the external detection and encoding of the
    frame: every face encoding is matched independently. *)
Fixpoint recognize_faces (m : FaceRecognitionModel) (tolerance : Q)
    (face_encodings : list Encoding) : result (list (string * Q)) :=
  match face_encodings with
  | [] => Ok []
  | e :: rest =>
      r ← recognize_face m tolerance e;
      rs ← recognize_faces m tolerance rest;
      Ok (r :: rs)
  end.

(** *** The store: [add_person], [remove_person], [get_known_names] *)

(** Contents of a pickle file on disk. *)
Inductive file (A : Type) :=
  | Missing
  | Corrupt
  | Pickled (a : A).
Arguments Missing {A}.
Arguments Corrupt {A}.
Arguments Pickled {A} a.

Record Disk := {
  encodings_file : file (list Encoding);
  names_file : file (list string)
}.

(** [load_encodings] (lines 18-32): both files must exist; any exception while
    unpickling resets both lists; otherwise the lists are replaced by what
    the two files hold, without any comparison of their lengths. *)
Definition load_encodings (d : Disk) (m : FaceRecognitionModel)
    : FaceRecognitionModel :=
  match encodings_file d, names_file d with
  | Missing, _ | _, Missing => m
  | Pickled encs, Pickled names =>
      {| known_encodings := encs; known_names := names |}
  | _, _ => {| known_encodings := []; known_names := [] |}
  end.

(** [__init__]: empty lists, then [load_encodings]. *)
Definition init_model (d : Disk) : FaceRecognitionModel :=
  load_encodings d {| known_encodings := []; known_names := [] |}.

(** Where the two writes of [save_encodings] stop: the [try] block writes
    the encodings file, then the names file; an exception at either
    [open] is caught and printed, and leaves the later file as it was. *)
Inductive save_outcome :=
  | SaveCompleted
  | SaveFailedAtEncodings
  | SaveFailedAtNames.

Definition save_encodings (io : save_outcome) (m : FaceRecognitionModel)
    (d : Disk) : Disk :=
  match io with
  | SaveCompleted =>
      {| encodings_file := Pickled (known_encodings m);
         names_file := Pickled (known_names m) |}
  | SaveFailedAtEncodings => d
  | SaveFailedAtNames =>
      {| encodings_file := Pickled (known_encodings m);
         names_file := names_file d |}
  end.

(** One image of [add_person] (lines 49-68): [None] when [cv2.imread] fails, otherwise
    the encodings of the faces found; the first face is kept. *)
Definition first_face (image : option (list Encoding)) : list Encoding :=
  match image with
  | Some (e :: _) => [e]
  | _ => []
  end.

Definition person_encodings (images : list (option (list Encoding)))
    : list Encoding :=
  flat_map first_face images.

Definition add_person (io : save_outcome) (name : string)
    (images : list (option (list Encoding)))
    (m : FaceRecognitionModel) (d : Disk)
    : bool * FaceRecognitionModel * Disk :=
  let pe := person_encodings images in
  match pe with
  | _ :: _ =>
      let m' := {| known_encodings := known_encodings m ++ pe;
                   known_names := known_names m ++ replicate (length pe) name |} in
      (true, m', save_encodings io m' d)
  | [] => (false, m, d)
  end.

(** [enumerate(l)], from index [i]. *)
Fixpoint enumerate_from {A} (i : nat) (l : list A) : list (nat * A) :=
  match l with
  | [] => []
  | x :: r => (i, x) :: enumerate_from (S i) r
  end.

Definition indices_to_remove (names : list string) (name : string)
    : list nat :=
  map fst (filter (fun p => p.2 = name) (enumerate_from 0 names)).

(** [del l[i]] raises [IndexError] out of range. *)
Definition del {A} (l : list A) (i : nat) : result (list A) :=
  if (i <? length l)%nat then Ok (delete i l) else Raise IndexError.

(** The loop [for i in reversed(indices_to_remove)], given the already
    reversed list of indices. *)
Fixpoint remove_at (idxs : list nat) (m : FaceRecognitionModel)
    : result FaceRecognitionModel :=
  match idxs with
  | [] => Ok m
  | i :: rest =>
      encs ← del (known_encodings m) i;
      names ← del (known_names m) i;
      remove_at rest {| known_encodings := encs; known_names := names |}
  end.

(** [remove_person] (lines 119-134): the returned boolean, the number
    [len(indices_to_remove)] of removed encodings, the model and the disk. *)
Definition remove_person (io : save_outcome) (name : string)
    (m : FaceRecognitionModel) (d : Disk)
    : result (bool * nat * FaceRecognitionModel * Disk) :=
  let idxs := indices_to_remove (known_names m) name in
  match idxs with
  | _ :: _ =>
      m' ← remove_at (reverse idxs) m;
      Ok (true, length idxs, m', save_encodings io m' d)
  | [] => Ok (false, O, m, d)
  end.

(** [get_known_names]: [list(set(self.known_names))]. *)
Definition get_known_names (m : FaceRecognitionModel) : list string :=
  elements (list_to_set (known_names m) : gset string).

End FaceRecognitionModel.

Arguments Missing {A}.
Arguments Corrupt {A}.
Arguments Pickled {A} a.
Arguments FaceRecognitionModel : clear implicits.
Arguments Disk : clear implicits.

(** *** Vocabulary for the statements about the store and the match *)

(** A one-dimensional encoder with integer coordinates: the Euclidean
    distance of two points of the line.  Used for concrete populations. *)
Definition zdist (a b : Z) : Q := inject_Z (Z.abs (a - b)).

(** The two parallel lists describe one list of (identity, encoding) pairs. *)
Definition parallel {Encoding} (m : FaceRecognitionModel Encoding) : Prop :=
  length (known_encodings m) = length (known_names m).

(** The (identity, encoding) pairs of the store, in index order. *)
Definition entries {Encoding} (m : FaceRecognitionModel Encoding)
    : list (string * Encoding) :=
  zip (known_names m) (known_encodings m).

(** The two pickle files, when both hold lists, hold equally long ones. *)
Definition disk_consistent {Encoding} (d : Disk Encoding) : Prop :=
  match encodings_file d, names_file d with
  | Pickled encs, Pickled names => length encs = length names
  | _, _ => True
  end.

(** "Loading preserves the invariant", for every content of the files. *)
Definition load_preserves_parallel (Encoding : Type) : Prop :=
  forall (d : Disk Encoding) (m : FaceRecognitionModel Encoding),
    parallel m -> parallel (load_encodings d m).

(** [d] is the minimum of the distances from [e] to the known encodings. *)
Definition is_min_distance {Encoding} (dist : Encoding -> Encoding -> Q)
    (known : list Encoding) (e : Encoding) (d : Q) : Prop :=
  (exists j : nat, face_distance dist known e !! j = Some d) /\
  (forall (j : nat) (x : Q), face_distance dist known e !! j = Some x -> d <= x).

(** The encoder's metric is a distance: never negative, zero exactly between
    equal encodings. *)
Record metric {Encoding} (dist : Encoding -> Encoding -> Q) : Prop := {
  dist_nonneg : forall a b, 0 <= dist a b;
  dist_self : forall a, dist a a == 0;
  dist_zero : forall a b, dist a b == 0 -> a = b
}.

(** "An input equal to a member's encoding is matched to that member":
    for every entry of the store whose encoding is the input. *)
Definition matches_every_equal_member {Encoding}
    (dist : Encoding -> Encoding -> Q) (m : FaceRecognitionModel Encoding)
    (tolerance : Q) (e : Encoding) : Prop :=
  forall (j : nat) (name : string),
    known_encodings m !! j = Some e -> known_names m !! j = Some name ->
    exists c : Q,
      recognize_face dist m tolerance e = Ok (name, c) /\ 1 - tolerance <= c.

(** "When two or more registered embeddings attain the same minimum
    distance, the identity returned is the one stored at the lowest index":
    for a minimum [d] within the tolerance that is attained at the indices
    [i < j], [i] being the lowest index attaining it, the match returns the
    name stored at [i]. *)
Definition tie_returns_lowest_index {Encoding}
    (dist : Encoding -> Encoding -> Q) (m : FaceRecognitionModel Encoding)
    (tolerance : Q) (e : Encoding) : Prop :=
  forall (i j : nat) (d d' : Q),
    (i < j)%nat ->
    face_distance dist (known_encodings m) e !! i = Some d ->
    face_distance dist (known_encodings m) e !! j = Some d' -> d' == d ->
    (forall (k : nat) (x : Q),
        face_distance dist (known_encodings m) e !! k = Some x -> d <= x) ->
    (forall (k : nat) (x : Q), (k < i)%nat ->
        face_distance dist (known_encodings m) e !! k = Some x -> d < x) ->
    d <= tolerance ->
    exists (name : string) (c : Q),
      known_names m !! i = Some name /\
      recognize_face dist m tolerance e = Ok (name, c).

(** "For every store state and person, the remove operation deletes every
    embedding owned by the person, who is then no longer among the known
    identities, and leaves the other identities as they were". *)
Definition remove_forgets_person (Encoding : Type) : Prop :=
  forall (io : save_outcome) (name : string)
         (m : FaceRecognitionModel Encoding) (d : Disk Encoding),
    exists ok n m' d',
      remove_person io name m d = Ok (ok, n, m', d') /\
      (name ∉ get_known_names m') /\
      (forall other : string, other <> name ->
          (other ∈ get_known_names m' <-> other ∈ get_known_names m)).

(** ** database.py *)

(** The readings of [datetime.now()], in microseconds: the [reads]-th call
    returns [now_at reads]. *)
Record Clock := {
  now_at : nat -> Z;
  reads : nat
}.

Definition datetime_now (c : Clock) : Z * Clock :=
  (now_at c (reads c), {| now_at := now_at c; reads := S (reads c) |}).

(** [strftime(DATETIME_FORMAT)]: the instant cut to whole seconds. *)
Definition strftime_datetime (t : Z) : Z := (t / 1000000)%Z.

(** [strftime('%Y-%m-%d')]: the instant cut to whole days. *)
Definition strftime_date (t : Z) : Z := (t / 86400000000)%Z.

(** [timedelta(minutes=n)], in microseconds. *)
Definition timedelta_minutes (n : Z) : Z := (n * 60 * 1000000)%Z.

Record User := {
  user_id : Z;
  user_name : string
}.

Record AttendanceRow := {
  att_user_id : option Z;
  att_name : string;
  att_timestamp : Z;
  att_date : Z;
  att_confidence : option Q
}.

Record CsvRecord := {
  csv_name : string;
  csv_timestamp : Z;
  csv_confidence : option Q
}.

(** The SQLite file and the CSV log; [db_writable] and [csv_writable] tell
    whether a write to them succeeds. *)
Record AttendanceDatabase := {
  users : list User;
  attendance : list AttendanceRow;
  csv_log : list CsvRecord;
  db_writable : bool;
  csv_writable : bool;
  clock : Clock
}.

Definition with_clock (c : Clock) (db : AttendanceDatabase) : AttendanceDatabase :=
  {| users := users db; attendance := attendance db; csv_log := csv_log db;
     db_writable := db_writable db; csv_writable := csv_writable db;
     clock := c |}.

Definition with_attendance (rows : list AttendanceRow) (db : AttendanceDatabase)
    : AttendanceDatabase :=
  {| users := users db; attendance := rows; csv_log := csv_log db;
     db_writable := db_writable db; csv_writable := csv_writable db;
     clock := clock db |}.

Definition with_csv_log (log : list CsvRecord) (db : AttendanceDatabase)
    : AttendanceDatabase :=
  {| users := users db; attendance := attendance db; csv_log := log;
     db_writable := db_writable db; csv_writable := csv_writable db;
     clock := clock db |}.

(** [get_user_by_name]: [SELECT * FROM users WHERE name = ?], first row. *)
Definition get_user_by_name (db : AttendanceDatabase) (name : string)
    : option User :=
  head (filter (fun u => user_name u = name) (users db)).

(** The rows counted by the query of [is_recent_attendance]:
    [WHERE name = ? AND timestamp > ?]. *)
Definition recent_rows (db : AttendanceDatabase) (name : string) (cutoff : Z)
    : list AttendanceRow :=
  filter (fun r => att_name r = name /\ (cutoff < att_timestamp r)%Z)
         (attendance db).

Definition is_recent_attendance (name : string) (minutes : Z)
    (db : AttendanceDatabase) : bool * AttendanceDatabase :=
  let '(now, c) := datetime_now (clock db) in
  let cutoff_time := (now - timedelta_minutes minutes)%Z in
  let count := length (recent_rows db name (strftime_datetime cutoff_time)) in
  ((0 <? count)%nat, with_clock c db).

(** [log_to_csv]: the confidence column holds ['N/A'] ([None] here) when
    the confidence is absent or zero. *)
Definition csv_confidence_of (confidence : option Q) : option Q :=
  match confidence with
  | Some q => if Qeq_bool q 0 then None else Some q
  | None => None
  end.

Definition log_to_csv (name : string) (timestamp : Z) (confidence : option Q)
    (db : AttendanceDatabase) : AttendanceDatabase * result unit :=
  if csv_writable db then
    (with_csv_log (csv_log db ++
       [{| csv_name := name; csv_timestamp := strftime_datetime timestamp;
           csv_confidence := csv_confidence_of confidence |}]) db, Ok tt)
  else (db, Raise OSError).

Definition already_marked : string := "Attendance already marked recently".
Definition marked_successfully : string := "Attendance marked successfully".

(** [mark_attendance] (lines 80-108): [now] is read first; then the recency
    check with its fixed [minutes=5], which reads the clock again; then the
    [INSERT], then the CSV line.  An unwritable database raises at the
    [INSERT]; nothing in this function catches it. *)
Definition mark_attendance (name : string) (confidence : option Q)
    (db : AttendanceDatabase) : AttendanceDatabase * result (bool * string) :=
  let '(now, c) := datetime_now (clock db) in
  let db := with_clock c db in
  let date_str := strftime_date now in
  let '(recent, db) := is_recent_attendance name 5 db in
  if recent then (db, Ok (false, already_marked))
  else
    let user := get_user_by_name db name in
    let uid := user_id <$> user in
    if db_writable db then
      let db := with_attendance (attendance db ++
          [{| att_user_id := uid; att_name := name;
              att_timestamp := strftime_datetime now; att_date := date_str;
              att_confidence := confidence |}]) db in
      match log_to_csv name now confidence db with
      | (db, Ok _) => (db, Ok (true, marked_successfully))
      | (db, Raise e) => (db, Raise e)
      end
    else (db, Raise OperationalError).

(** ** attendance_system.py *)

(** What [process_attendance] does towards its collaborators, in order:
    the membership test on the cooldown map, the call of the recorder, and
    the two printed lines. *)
Inductive event :=
  | GuardConsulted (name : string)
  | RecorderInvoked (name : string) (confidence : Q)
  | PrintedMarked (name : string) (confidence : Q)
  | PrintedWarning (message : string) (name : string).

Record AttendanceSystem := {
  last_attendance : gmap string Q;
  db : AttendanceDatabase;
  trace : list event
}.

Section ProcessAttendance.

Variable CONFIDENCE_THRESHOLD : Q.
Variable ATTENDANCE_COOLDOWN_MINUTES : Q.

(** Lines 131-134: the in-memory cooldown test. *)
Definition within_cooldown (last : gmap string Q) (name : string)
    (current_time : Q) : bool :=
  match last !! name with
  | Some t0 =>
      let time_diff := current_time - t0 in
      Qlt_bool time_diff (ATTENDANCE_COOLDOWN_MINUTES * 60)
  | None => false
  end.

Definition log (e : event) (s : AttendanceSystem) : AttendanceSystem :=
  {| last_attendance := last_attendance s; db := db s;
     trace := trace s ++ [e] |}.

(** One iteration of the loop of [process_attendance] (lines 126-143). *)
Definition process_face (current_time : Q) (s : AttendanceSystem)
    (name : string) (confidence : Q) : AttendanceSystem * result unit :=
  if bool_decide (name = Unknown) || Qlt_bool confidence CONFIDENCE_THRESHOLD
  then (s, Ok tt)
  else
    let s := log (GuardConsulted name) s in
    if within_cooldown (last_attendance s) name current_time
    then (s, Ok tt)
    else
      let s := log (RecorderInvoked name confidence) s in
      match mark_attendance name (Some confidence) (db s) with
      | (db', Ok (success, message)) =>
          if success then
            (log (PrintedMarked name confidence)
               {| last_attendance := <[name := current_time]> (last_attendance s);
                  db := db'; trace := trace s |}, Ok tt)
          else
            (log (PrintedWarning message name)
               {| last_attendance := last_attendance s;
                  db := db'; trace := trace s |}, Ok tt)
      | (db', Raise e) =>
          ({| last_attendance := last_attendance s;
              db := db'; trace := trace s |}, Raise e)
      end.

(** The loop over [zip(face_names, face_confidences)]; an exception ends
    it and leaves the state as it was when raised. *)
Fixpoint process_faces (current_time : Q) (s : AttendanceSystem)
    (faces : list (string * Q)) : AttendanceSystem * result unit :=
  match faces with
  | [] => (s, Ok tt)
  | (name, confidence) :: rest =>
      match process_face current_time s name confidence with
      | (s', Ok _) => process_faces current_time s' rest
      | (s', Raise e) => (s', Raise e)
      end
  end.

Definition process_attendance (current_time : Q) (s : AttendanceSystem)
    (face_names : list string) (face_confidences : list Q)
    : AttendanceSystem * result unit :=
  process_faces current_time s (zip face_names face_confidences).

(** Key ['r'] of the main loop: [self.last_attendance.clear()]. *)
Definition reset_cooldown (s : AttendanceSystem) : AttendanceSystem :=
  {| last_attendance := ∅; db := db s; trace := trace s |}.

End ProcessAttendance.

(** *** Vocabulary for the statements about recording *)

(** A clock that returns the given readings in order. *)
Definition clock_of (readings : list Z) : Clock :=
  {| now_at := fun n => nth n readings 0%Z; reads := O |}.

(** The database right after [init_database], with a given clock. *)
Definition fresh_database (c : Clock) : AttendanceDatabase :=
  {| users := []; attendance := []; csv_log := [];
     db_writable := true; csv_writable := true; clock := c |}.

Definition fresh_system (database : AttendanceDatabase) : AttendanceSystem :=
  {| last_attendance := ∅; db := database; trace := [] |}.

(** "When the durable write raises, the cooldown entry of that person is
    still set to the current instant." *)
Definition guard_updated_on_failure (threshold cooldown_minutes : Q)
    (current_time : Q) (s : AttendanceSystem) (name : string) (confidence : Q)
    : Prop :=
  forall (s' : AttendanceSystem) (e : exn),
    process_face threshold cooldown_minutes current_time s name confidence
      = (s', Raise e) ->
    last_attendance s' !! name = Some current_time.

(** A database whose file cannot be written (read-only or full disk). *)
Definition unwritable_database (c : Clock) : AttendanceDatabase :=
  {| users := []; attendance := []; csv_log := [];
     db_writable := false; csv_writable := true; clock := c |}.
(** ** Further vocabulary *)

(** An image of [add_person] that yields an encoding: it could be read and
    a face was found in it. *)
Definition has_face {Encoding} (image : option (list Encoding)) : bool :=
  match image with
  | Some (_ :: _) => true
  | _ => false
  end.

(** ** database.py, continued *)

(** The attendance table and the CSV log hold the same events: the same
    names with the same timestamps, in the same order. *)
Definition mirrored (db : AttendanceDatabase) : Prop :=
  map (fun r => (att_name r, att_timestamp r)) (attendance db) =
  map (fun r => (csv_name r, csv_timestamp r)) (csv_log db).

(** [delete_user] (lines 184-199): both [DELETE]s, then the commit; the
    returned boolean is [cursor.rowcount > 0] of the last statement, the
    [DELETE FROM users].  On an unwritable database the first [DELETE]
    raises. *)
Definition delete_user (name : string) (db : AttendanceDatabase)
    : AttendanceDatabase * result bool :=
  if db_writable db then
    let rows := filter (fun r => att_name r <> name) (attendance db) in
    let kept := filter (fun u => user_name u <> name) (users db) in
    let deleted_rows := (length (users db) - length kept)%nat in
    ({| users := kept; attendance := rows; csv_log := csv_log db;
        db_writable := db_writable db; csv_writable := csv_writable db;
        clock := clock db |}, Ok (0 <? deleted_rows)%nat)
  else (db, Raise OperationalError).

(** The rows on a given date. *)
Definition rows_on (date : Z) (rows : list AttendanceRow) : list AttendanceRow :=
  filter (fun r => att_date r = date) rows.

(** The order of [ORDER BY date DESC]. *)
Definition date_desc (a b : Z) : Prop := (b <= a)%Z.

#[global] Instance date_desc_dec : RelDecision date_desc :=
  fun a b => decide (b <= a)%Z.

(** [GROUP BY date ... ORDER BY date DESC] with [COUNT( * )]: one pair per
    date that has rows, most recent date first. *)
Definition grouped_by_date (rows : list AttendanceRow) : list (Z * nat) :=
  (fun d => (d, length (rows_on d rows))) <$>
    merge_sort date_desc (remove_dups (att_date <$> rows)).

(** [get_attendance_summary] (lines 160-182).  A date text is represented by
    its day number; an absent or empty argument is [None].  With both
    bounds the rows [WHERE date BETWEEN ? AND ?] are grouped; otherwise all
    rows are grouped and the result is cut by [LIMIT 30]. *)
Definition get_attendance_summary (start_date end_date : option Z)
    (db : AttendanceDatabase) : list (Z * nat) :=
  match start_date, end_date with
  | Some s, Some e =>
      grouped_by_date
        (filter (fun r => (s <= att_date r)%Z /\ (att_date r <= e)%Z) (attendance db))
  | _, _ => take 30 (grouped_by_date (attendance db))
  end.

(** ** app.py *)

(** [timedelta(days=n)], in microseconds. *)
Definition timedelta_days (n : Z) : Z := (n * 86400000000)%Z.

(** *** The range of [datetime]

    A [datetime] lies between [datetime.min], 0001-01-01 00:00:00, and
    [datetime.max], 9999-12-31 23:59:59.999999.  With instants counted from
    1970-01-01 00:00:00, which is day 0, these are the days [date_min] to
    [date_max].  [datetime - timedelta] and [datetime + timedelta] raise
    [OverflowError] when the result is not a [datetime].  For a [datetime]
    on the left this is also the outcome whenever [timedelta(...)] itself
    raises [OverflowError], beyond 999999999 days, the range of [timedelta]
    being the wider one.  The cutoff of [is_recent_attendance] (line 115)
    is such a subtraction: the embedding of that function above is for
    cutoffs that exist, as those of the five minutes of [mark_attendance]
    do. *)
Definition date_min : Z := -719162.
Definition date_max : Z := 2932896.

Definition representable (t : Z) : Prop :=
  (timedelta_days date_min <= t < timedelta_days (date_max + 1))%Z.

#[global] Instance representable_dec (t : Z) : Decision (representable t).
Proof. unfold representable. apply _. Defined.

(** From 1000-01-01, day [date_1000], on, the texts of [strftime] have a
    year of four digits, and their order as texts, which is what SQLite
    compares, is the order of the instants, as it is for the numbers that
    stand for them here.  Before that day the width of [%Y] depends on the
    platform. *)
Definition date_1000 : Z := -354285.

Definition four_digit_year (t : Z) : Prop :=
  (timedelta_days date_1000 <= t < timedelta_days (date_max + 1))%Z.

Inductive checked (A : Type) :=
  | Fits (a : A)
  | OverflowError.
Arguments Fits {A} a.
Arguments OverflowError {A}.

Definition datetime_add (t delta : Z) : checked Z :=
  if decide (representable (t + delta)) then Fits (t + delta)%Z
  else OverflowError.

Definition datetime_sub (t delta : Z) : checked Z :=
  if decide (representable (t - delta)) then Fits (t - delta)%Z
  else OverflowError.

(** The inner loop of [api_attendance_chart] (lines 144-149): the count of
    the first summary row with the given date, 0 when there is none. *)
Definition chart_count (summary : list (Z * nat)) (current_date : Z) : nat :=
  match filter (fun row => row.1 = current_date) summary with
  | row :: _ => row.2
  | [] => O
  end.

(** The loop [for i in range(days)] (lines 141-154), given the values of
    [i]: one (date, count) pair per value; the loop stops at a
    [start_date + timedelta(days=i)] that raises. *)
Fixpoint chart_data (summary : list (Z * nat)) (start_date : Z)
    (range_days : list Z) : checked (list (Z * nat)) :=
  match range_days with
  | [] => Fits []
  | i :: rest =>
      match datetime_add start_date (timedelta_days i) with
      | OverflowError => OverflowError
      | Fits current =>
          let current_date := strftime_date current in
          match chart_data summary start_date rest with
          | OverflowError => OverflowError
          | Fits data =>
              Fits ((current_date, chart_count summary current_date) :: data)
          end
      end
  end.

(** [api_attendance_chart] (lines 128-156), for a [days] argument already
    converted to an integer.  Nothing catches the [OverflowError] of line
    133 or of the loop. *)
Definition api_attendance_chart (days : Z) (db : AttendanceDatabase)
    : checked (list (Z * nat)) * AttendanceDatabase :=
  let '(end_date, c) := datetime_now (clock db) in
  (match datetime_sub end_date (timedelta_days (days - 1)) with
   | OverflowError => OverflowError
   | Fits start_date =>
       let summary :=
         get_attendance_summary (Some (strftime_date start_date))
                                (Some (strftime_date end_date)) db in
       chart_data summary start_date (seqZ 0 days)
   end,
   with_clock c db).

(** The lists as the loop of [remove_person] leaves them when it stops:
    at its end, or at the [del] that raises. *)
Fixpoint remove_at_partial {Encoding} (idxs : list nat)
    (m : FaceRecognitionModel Encoding) : FaceRecognitionModel Encoding :=
  match idxs with
  | [] => m
  | i :: rest =>
      match del (known_encodings m) i with
      | Raise _ => m
      | Ok encs =>
          match del (known_names m) i with
          | Raise _ => {| known_encodings := encs; known_names := known_names m |}
          | Ok names =>
              remove_at_partial rest
                {| known_encodings := encs; known_names := names |}
          end
      end
  end.

(** What the [delete_user] route flashes. *)
Inductive flash :=
  | FlashDeleted
  | FlashNotFound
  | FlashError.

(** The [delete_user] route (lines 158-175): the database first, then the
    face store; any exception is caught and flashed, and what was done
    before it stays done. *)
Definition delete_user_route {Encoding} (io : save_outcome) (name : string)
    (db : AttendanceDatabase) (m : FaceRecognitionModel Encoding)
    (d : Disk Encoding)
    : flash * AttendanceDatabase * FaceRecognitionModel Encoding * Disk Encoding :=
  match delete_user name db with
  | (db', Raise _) => (FlashError, db', m, d)
  | (db', Ok db_success) =>
      match remove_person io name m d with
      | Raise _ =>
          (FlashError, db',
           remove_at_partial (reverse (indices_to_remove (known_names m) name)) m, d)
      | Ok (face_success, _, m', d') =>
          (if db_success || face_success then FlashDeleted else FlashNotFound,
           db', m', d')
      end
  end.

(** ** face_recognition_model.py: [capture_face_samples] *)

(** What [cv2.VideoCapture(0 + backend)] followed by [isOpened()] gives for
    one backend. *)
Inductive open_outcome :=
  | CameraOpened
  | CameraClosed
  | CameraRaised.

(** The names of the list [backends] (lines 143-147). *)
Definition backends : list string :=
  ["DirectShow"; "Media Foundation"; "Default"]%string.

(** The loop [for backend, name in backends] (lines 150-159), from the
    [i]-th backend on: it stops at the first camera that opens.  The result
    is the value the loop variable [name] has when a camera is open. *)
Fixpoint open_camera (try_open : nat -> open_outcome) (i : nat)
    (names : list string) : option string :=
  match names with
  | [] => None
  | name :: rest =>
      match try_open i with
      | CameraOpened => Some name
      | _ => open_camera try_open (S i) rest
      end
  end.

Inductive capture_key :=
  | KeySpace
  | KeyQuit
  | KeyOther.

#[global] Instance capture_key_eq_dec : EqDecision capture_key.
Proof. solve_decision. Defined.

(** One turn of the capture loop as the environment decides it: whether
    [cap.read()] succeeds, how many faces are detected, the key read. *)
Record capture_frame := {
  read_ok : bool;
  faces_in_frame : nat;
  key_pressed : capture_key
}.

(** A file path, as the list of its components. *)
Definition sample_path (person_dir : list string) (name : string)
    (index : nat) : list string :=
  person_dir ++ [name +:+ "_" +:+ pretty index +:+ ".jpg"].

(** The loop [while samples_captured < num_samples] (lines 184-218);
    [None] when the given frames end while the loop is still waiting for
    the camera. *)
Fixpoint capture_loop (person_dir : list string) (name : string)
    (num_samples : Z) (samples_captured : nat)
    (image_paths : list (list string)) (frames : list capture_frame)
    : option (list (list string)) :=
  match frames with
  | [] =>
      if (Z.of_nat samples_captured <? num_samples)%Z then None
      else Some image_paths
  | f :: rest =>
      if (Z.of_nat samples_captured <? num_samples)%Z then
        if negb (read_ok f) then Some image_paths
        else
          match key_pressed f with
          | KeySpace =>
              if (0 <? faces_in_frame f)%nat then
                capture_loop person_dir name num_samples (S samples_captured)
                  (image_paths ++
                     [sample_path person_dir name (S samples_captured)])
                  rest
              else
                capture_loop person_dir name num_samples samples_captured
                  image_paths rest
          | KeyQuit => Some image_paths
          | KeyOther =>
              capture_loop person_dir name num_samples samples_captured
                image_paths rest
          end
      else Some image_paths
  end.

(** [capture_face_samples] (lines 140-223).  The loop over the backends
    rebinds [name]: from there on [name] is the name of the backend that
    opened the camera, as in the source. *)
Definition capture_face_samples (datasets_dir : list string)
    (try_open : nat -> open_outcome) (name : string) (num_samples : Z)
    (frames : list capture_frame) : option (list (list string)) :=
  match open_camera try_open 0 backends with
  | None => Some []
  | Some name =>
      let person_dir := datasets_dir ++ [name] in
      capture_loop person_dir name num_samples 0 [] frames
  end.

(** ** attendance_system.py: the main loop *)

Inductive loop_key :=
  | PressQ
  | PressS
  | PressR
  | PressOther.

(** One turn of the main loop as the environment decides it: the faces of
    the frame read ([None] when [cap.read()] fails), the reading of
    [time.time()] inside [process_attendance], the reading of [time.time()]
    for the FPS display, and the key read by [cv2.waitKey]. *)
Record loop_input {Encoding : Type} := {
  grabbed : option (list Encoding);
  process_time : Q;
  fps_time : Q;
  pressed : loop_key
}.
Arguments loop_input : clear implicits.

Record loop_state := {
  system : AttendanceSystem;
  frame_count : nat;
  fps_start_time : Q;
  screenshots : nat
}.

Inductive loop_exn :=
  | Escaped (e : exn)
  | ZeroDivisionError.

(** How one turn ends: the loop goes on, it breaks (and [cleanup] runs), or
    an exception leaves [run] (and [cleanup] does not run). *)
Inductive turn :=
  | GoOn (st : loop_state)
  | Break (st : loop_state)
  | Crash (st : loop_state) (e : loop_exn).

(** How [run] ends. *)
Inductive loop_end :=
  | CleanedUp
  | Raised (e : loop_exn).

Definition with_system (s : AttendanceSystem) (st : loop_state) : loop_state :=
  {| system := s; frame_count := frame_count st;
     fps_start_time := fps_start_time st; screenshots := screenshots st |}.

(** One call of [datetime.now()] made for display or for a file name. *)
Definition read_datetime (s : AttendanceSystem) : AttendanceSystem :=
  {| last_attendance := last_attendance s;
     db := with_clock (datetime_now (clock (db s))).2 (db s);
     trace := trace s |}.

Section MainLoop.

Context {Encoding : Type}.
Variable dist : Encoding -> Encoding -> Q.
Variable face_model : FaceRecognitionModel Encoding.
Variables (tolerance threshold minutes : Q).

(** Lines 84-97: the key handling that ends a turn. *)
Definition handle_key (k : loop_key) (st : loop_state) : turn :=
  match k with
  | PressQ => Break st
  | PressS =>
      GoOn {| system := read_datetime (system st); frame_count := frame_count st;
              fps_start_time := fps_start_time st;
              screenshots := S (screenshots st) |}
  | PressR => GoOn (with_system (reset_cooldown (system st)) st)
  | PressOther => GoOn st
  end.

(** Lines 64-97: the FPS display every 30th frame (a division by the
    elapsed time), the clock display, then the key. *)
Definition finish_turn (inp : loop_input Encoding) (st : loop_state) : turn :=
  let after_fps :=
    if (frame_count st mod 30 =? 0)%nat then
      if Qeq_bool (fps_time inp) (fps_start_time st) then None
      else Some {| system := system st; frame_count := frame_count st;
                   fps_start_time := fps_time inp; screenshots := screenshots st |}
    else Some st in
  match after_fps with
  | None => Crash st ZeroDivisionError
  | Some st => handle_key (pressed inp) (with_system (read_datetime (system st)) st)
  end.

(** Lines 46-97: one turn of the loop of [run]. *)
Definition run_turn (st : loop_state) (inp : loop_input Encoding) : turn :=
  match grabbed inp with
  | None => Break st
  | Some faces =>
      let st := {| system := system st; frame_count := S (frame_count st);
                   fps_start_time := fps_start_time st;
                   screenshots := screenshots st |} in
      if (frame_count st mod 3 =? 0)%nat then
        match recognize_faces dist face_model tolerance faces with
        | Raise e => Crash st (Escaped e)
        | Ok results =>
            match process_attendance threshold minutes (process_time inp)
                    (system st) results.*1 results.*2 with
            | (s, Raise e) => Crash (with_system s st) (Escaped e)
            | (s, Ok _) => finish_turn inp (with_system s st)
            end
        end
      else finish_turn inp st
  end.

(** The loop on the given turns; [None] when they end while the loop is
    still running.  After a break [cleanup] runs; an exception leaves [run]
    before it. *)
Fixpoint run_from (st : loop_state) (inputs : list (loop_input Encoding))
    : option (loop_state * loop_end) :=
  match inputs with
  | [] => None
  | inp :: rest =>
      match run_turn st inp with
      | GoOn st' => run_from st' rest
      | Break st' => Some (st', CleanedUp)
      | Crash st' e => Some (st', Raised e)
      end
  end.

End MainLoop.

(** The same turn with other faces in the frame, when a frame was read. *)
Definition with_faces {Encoding} (faces : list Encoding)
    (inp : loop_input Encoding) : loop_input Encoding :=
  {| grabbed := (fun _ => faces) <$> grabbed inp;
     process_time := process_time inp; fps_time := fps_time inp;
     pressed := pressed inp |}.

(** The turns with the faces of every frame that is not a third frame
    replaced by others; [count] frames were read before. *)
Fixpoint replace_skipped {Encoding} (other : nat -> list Encoding)
    (count : nat) (inputs : list (loop_input Encoding))
    : list (loop_input Encoding) :=
  match inputs with
  | [] => []
  | inp :: rest =>
      (if (S count mod 3 =? 0)%nat then inp else with_faces (other (S count)) inp)
        :: replace_skipped other (S count) rest
  end.

(** The state of a turn apart from the clock of [datetime.now()]. *)
Definition attendance_view (st : loop_state)
    : gmap string Q * list AttendanceRow * list CsvRecord * list event :=
  (last_attendance (system st), attendance (db (system st)),
   csv_log (db (system st)), trace (system st)).

(** ** The definitions on small inputs *)

Example argmin_first_of_ties : argmin [5; 1; 3; 1] = 1%nat.
Proof. reflexivity. Qed.

Example recognize_nearest :
  recognize_face zdist
    {| known_encodings := [0%Z; 10%Z]; known_names := ["alice"; "bob"]%string |}
    Config.FACE_RECOGNITION_TOLERANCE 0%Z = Ok ("alice"%string, 1).
Proof. reflexivity. Qed.

Example recognize_too_far :
  recognize_face zdist
    {| known_encodings := [0%Z; 10%Z]; known_names := ["alice"; "bob"]%string |}
    Config.FACE_RECOGNITION_TOLERANCE 1%Z = Ok (Unknown, 0).
Proof. reflexivity. Qed.

Example indices_of_alice :
  indices_to_remove ["alice"; "bob"; "alice"]%string "alice" = [0; 2]%nat.
Proof. reflexivity. Qed.

Example remove_alice :
  remove_person SaveCompleted "alice"
    {| known_encodings := [1%Z; 2%Z; 3%Z];
       known_names := ["alice"; "bob"; "alice"]%string |}
    {| encodings_file := Missing; names_file := Missing |} =
  Ok (true, 2%nat,
      {| known_encodings := [2%Z]; known_names := ["bob"%string] |},
      {| encodings_file := Pickled [2%Z]; names_file := Pickled ["bob"%string] |}).
Proof. reflexivity. Qed.

Example add_keeps_first_face :
  (add_person SaveCompleted "carol" [None; Some []; Some [4%Z; 5%Z]]
     {| known_encodings := [1%Z]; known_names := ["alice"%string] |}
     {| encodings_file := Missing; names_file := Missing |}).1 =
  (true, {| known_encodings := [1%Z; 4%Z];
            known_names := ["alice"; "carol"]%string |}).
Proof. reflexivity. Qed.

Example strftime_drops_microseconds :
  strftime_datetime 36000900000 = 36000%Z /\
  strftime_datetime (36300500000 - timedelta_minutes 5) = 36000%Z.
Proof. split; reflexivity. Qed.

(** A frame with an unknown face, a face below the floor and a good one:
    only the last reaches the cooldown map and the recorder. *)
Example frame_of_three :
  let s := fresh_system (fresh_database (clock_of [36000900000; 36000900150]%Z)) in
  let out := process_attendance Config.CONFIDENCE_THRESHOLD
               Config.ATTENDANCE_COOLDOWN_MINUTES 1000 s
               [Unknown; "alice"; "bob"]%string [0; 55 # 100; 9 # 10] in
  trace out.1 = [GuardConsulted "bob"; RecorderInvoked "bob" (9 # 10);
                 PrintedMarked "bob" (9 # 10)] /\
  map att_name (attendance (db out.1)) = ["bob"%string] /\
  last_attendance out.1 !! "bob"%string = Some 1000 /\
  last_attendance out.1 !! "alice"%string = None.
Proof. vm_compute. repeat split; reflexivity. Qed.

(** The five-minute scenario: "bob" is marked at 0:00; the attempt at 4:59
    stops at the cooldown map; the attempt at 5:01 reaches the recorder. *)
Example five_minute_scenario :
  let thr := Config.CONFIDENCE_THRESHOLD in
  let mins := Config.ATTENDANCE_COOLDOWN_MINUTES in
  let s0 := fresh_system (fresh_database
              (clock_of [36000000000; 36000000150; 36301000000; 36301000150]%Z)) in
  let s1 := (process_attendance thr mins 0 s0 ["bob"%string] [9 # 10]).1 in
  let s2 := (process_attendance thr mins 299 s1 ["bob"%string] [9 # 10]).1 in
  let s3 := (process_attendance thr mins 301 s2 ["bob"%string] [9 # 10]).1 in
  last_attendance s1 !! "bob"%string = Some 0 /\
  drop (length (trace s1)) (trace s2) = [GuardConsulted "bob"] /\
  attendance (db s2) = attendance (db s1) /\
  drop (length (trace s2)) (trace s3) =
    [GuardConsulted "bob"; RecorderInvoked "bob" (9 # 10);
     PrintedMarked "bob" (9 # 10)] /\
  map att_timestamp (attendance (db s3)) = [36000%Z; 36301%Z].
Proof. vm_compute. repeat split; reflexivity. Qed.

(** ** Comparisons *)

Lemma Qlt_bool_iff x y : Qlt_bool x y = true <-> x < y.
Proof.
  unfold Qlt_bool. rewrite negb_true_iff.
  split.
  - intros H. apply Qnot_le_lt. intros Hle.
    apply Qle_bool_iff in Hle. congruence.
  - intros H. destruct (Qle_bool y x) eqn:E; [|reflexivity].
    apply Qle_bool_iff in E. lra.
Qed.

Lemma Qlt_bool_false x y : Qlt_bool x y = false <-> y <= x.
Proof.
  unfold Qlt_bool. rewrite negb_false_iff. apply Qle_bool_iff.
Qed.

Lemma Qle_bool_false x y : Qle_bool x y = false <-> y < x.
Proof.
  rewrite <- Qlt_bool_iff. unfold Qlt_bool.
  destruct (Qle_bool x y); simpl; intuition congruence.
Qed.

Lemma Qle_bool_true x y : Qle_bool x y = true <-> x <= y.
Proof. apply Qle_bool_iff. Qed.

(** ** The scan of [argmin] *)

Lemma argmin_from_spec (l : list Q) : forall (i best_i : nat) (best : Q),
  (argmin_from l i best_i best = best_i /\ Forall (fun x => best <= x) l) \/
  (exists (k : nat) (x : Q),
      argmin_from l i best_i best = (i + k)%nat /\ l !! k = Some x /\
      x < best /\ Forall (fun y => x <= y) l /\
      (forall (j : nat) (y : Q), (j < k)%nat -> l !! j = Some y -> x < y)).
Proof.
  induction l as [|x r IH]; intros i bi b; simpl.
  - left. split; [reflexivity | constructor].
  - destruct (Qlt_bool x b) eqn:E.
    + apply Qlt_bool_iff in E. right.
      destruct (IH (S i) i x)
        as [[Hr Hall] | (k & x' & Hr & Hk & Hlt & Hall & Hbefore)].
      * exists O, x. rewrite Hr.
        split; [lia|]. split; [reflexivity|]. split; [exact E|]. split.
        -- constructor; [cbv beta; lra | exact Hall].
        -- intros j y Hj. lia.
      * exists (S k), x'. rewrite Hr.
        split; [lia|]. split; [exact Hk|]. split; [lra|]. split.
        -- constructor; [cbv beta; lra | exact Hall].
        -- intros [|j] y Hj Hy; simpl in Hy.
           ++ injection Hy as <-. exact Hlt.
           ++ apply (Hbefore j y); [lia | exact Hy].
    + apply Qlt_bool_false in E.
      destruct (IH (S i) bi b)
        as [[Hr Hall] | (k & x' & Hr & Hk & Hlt & Hall & Hbefore)].
      * left. split; [exact Hr | constructor; assumption].
      * right. exists (S k), x'. rewrite Hr.
        split; [lia|]. split; [exact Hk|]. split; [exact Hlt|]. split.
        -- constructor; [cbv beta; lra | exact Hall].
        -- intros [|j] y Hj Hy; simpl in Hy.
           ++ injection Hy as <-. lra.
           ++ apply (Hbefore j y); [lia | exact Hy].
Qed.

(** On a non-empty list [argmin] is in range, attains a lower bound of the
    list, and everything before it is strictly larger. *)
Lemma argmin_spec (l : list Q) :
  l <> [] ->
  exists m : Q,
    l !! argmin l = Some m /\
    (forall (j : nat) (y : Q), l !! j = Some y -> m <= y) /\
    (forall (j : nat) (y : Q), (j < argmin l)%nat -> l !! j = Some y -> m < y).
Proof.
  destruct l as [|x r]; [done|]. intros _. unfold argmin.
  destruct (argmin_from_spec r 1 0 x)
    as [[Hr Hall] | (k & x' & Hr & Hk & Hlt & Hall & Hbefore)]; rewrite Hr.
  - exists x. split; [reflexivity|]. split.
    + intros [|j] y Hy; simpl in Hy.
      * injection Hy as <-. lra.
      * rewrite Forall_lookup in Hall. exact (Hall j y Hy).
    + intros j y Hj. lia.
  - exists x'. split; [exact Hk|]. split.
    + intros [|j] y Hy; simpl in Hy.
      * injection Hy as <-. lra.
      * rewrite Forall_lookup in Hall. exact (Hall j y Hy).
    + intros [|j] y Hj Hy; simpl in Hy.
      * injection Hy as <-. exact Hlt.
      * apply (Hbefore j y); [lia | exact Hy].
Qed.

Lemma argmin_lt_length (l : list Q) : l <> [] -> (argmin l < length l)%nat.
Proof.
  intros H. destruct (argmin_spec l H) as (m & Hm & _).
  eapply lookup_lt_Some. exact Hm.
Qed.

(** ** Matching one face *)

Lemma lookup_map {A B} (f : A -> B) (l : list A) (i : nat) :
  map f l !! i = f <$> (l !! i).
Proof. exact (list_lookup_fmap f l i). Qed.

Section Recognition.

Context {Encoding : Type}.
Variable dist : Encoding -> Encoding -> Q.

Lemma face_distance_lookup known e (j : nat) :
  face_distance dist known e !! j = (fun k => dist k e) <$> (known !! j).
Proof. apply lookup_map. Qed.

Lemma recognize_face_empty m tolerance e :
  known_encodings m = [] ->
  recognize_face dist m tolerance e = Ok (Unknown, 0).
Proof. intros H. unfold recognize_face. rewrite H. reflexivity. Qed.

(** What [recognize_face] returns on a non-empty store, in terms of the
    index chosen by [argmin]. *)
Lemma recognize_face_best m tolerance e :
  known_encodings m <> [] ->
  let ds := face_distance dist (known_encodings m) e in
  exists d : Q,
    ds !! argmin ds = Some d /\
    (forall (j : nat) (x : Q), ds !! j = Some x -> d <= x) /\
    (forall (j : nat) (x : Q), (j < argmin ds)%nat -> ds !! j = Some x -> d < x) /\
    recognize_face dist m tolerance e =
      if Qle_bool d tolerance then
        match known_names m !! argmin ds with
        | Some name => Ok (name, 1 - d)
        | None => Raise IndexError
        end
      else Ok (Unknown, 0).
Proof.
  intros Hne ds.
  assert (Hds : ds <> []).
  { subst ds. unfold face_distance. destruct (known_encodings m); done. }
  destruct (argmin_spec ds Hds) as (d & Hd & Hmin & Hfirst).
  exists d. split; [exact Hd|]. split; [exact Hmin|]. split; [exact Hfirst|].
  unfold recognize_face, compare_faces. fold ds.
  destruct ds as [|x r] eqn:Eds; [done|]. rewrite <- Eds in *.
  replace (0 <? length ds)%nat with true
    by (rewrite Eds; reflexivity).
  rewrite lookup_map, Hd. simpl.
  destruct (Qle_bool d tolerance); [|reflexivity].
  destruct (known_names m !! argmin ds); reflexivity.
Qed.

Lemma min_distance_unique known e d d' :
  is_min_distance dist known e d -> is_min_distance dist known e d' -> d == d'.
Proof.
  intros [[j Hj] Hmin] [[j' Hj'] Hmin'].
  apply Qle_antisym; [exact (Hmin j' d' Hj') | exact (Hmin' j d Hj)].
Qed.

Lemma Qle_bool_proper x x' y : x == x' -> Qle_bool x y = Qle_bool x' y.
Proof.
  intros H. destruct (Qle_bool x y) eqn:E1, (Qle_bool x' y) eqn:E2; try reflexivity.
  - apply Qle_bool_true in E1. apply Qle_bool_false in E2. lra.
  - apply Qle_bool_true in E2. apply Qle_bool_false in E1. lra.
Qed.

(** C3. Whenever every known encoding is farther from the input than the
    tolerance (so the minimum distance exceeds it, and also when nothing
    is known), the result is the [Unknown] sentinel with confidence 0,
    whatever the names list holds at the nearest index. *)
Theorem far_match_is_unknown (m : FaceRecognitionModel Encoding)
    (tolerance : Q) (e : Encoding) :
  (forall k : Encoding, k ∈ known_encodings m -> tolerance < dist k e) ->
  recognize_face dist m tolerance e = Ok (Unknown, 0).
Proof.
  intros Hfar.
  destruct (known_encodings m) as [|k0 ks] eqn:Ek.
  - apply recognize_face_empty. exact Ek.
  - assert (Hne : known_encodings m <> []) by (rewrite Ek; done).
    destruct (recognize_face_best m tolerance e Hne) as (d & Hd & _ & _ & ->).
    rewrite face_distance_lookup in Hd.
    destruct (known_encodings m !! _) as [k|] eqn:Hk; [|done].
    simpl in Hd. injection Hd as <-.
    assert (Hin : k ∈ known_encodings m).
    { apply list_elem_of_lookup. eauto. }
    rewrite Ek in Hin. specialize (Hfar k Hin).
    apply Qle_bool_false in Hfar. rewrite Hfar. reflexivity.
Qed.

(** The result in terms of the minimum distance, however it is named. *)
Lemma result_by_min m tolerance e r d :
  recognize_face dist m tolerance e = Ok r ->
  is_min_distance dist (known_encodings m) e d ->
  (d <= tolerance /\ r.2 == 1 - d) \/ (tolerance < d /\ r = (Unknown, 0)).
Proof.
  intros Hr Hmin.
  assert (Hne : known_encodings m <> []).
  { destruct Hmin as [[j Hj] _]. intros E. rewrite E in Hj. done. }
  destruct (recognize_face_best m tolerance e Hne) as (d0 & Hd0 & Hlow & _ & Heq).
  assert (Hdd : d0 == d).
  { apply (min_distance_unique (known_encodings m) e); [|exact Hmin].
    split; [eauto | exact Hlow]. }
  rewrite Heq in Hr.
  destruct (Qle_bool d0 tolerance) eqn:E.
  - apply Qle_bool_true in E. left. split; [lra|].
    destruct (known_names m !! _); [|done].
    injection Hr as <-. simpl. lra.
  - apply Qle_bool_false in E. right. split; [lra|].
    injection Hr as <-. reflexivity.
Qed.

(** C6. With the configured tolerance and a distance that is never
    negative: every confidence lies in [0,1]; an accepted match has
    confidence 1 - (minimum distance); a rejected one, and any match
    against an empty store, is [(Unknown, 0)]; a larger minimum distance
    never gives a larger confidence, and gives a strictly smaller one
    between accepted matches. *)
Theorem confidence_range_and_monotone :
  (forall a b, 0 <= dist a b) ->
  let tolerance := Config.FACE_RECOGNITION_TOLERANCE in
  (forall m e r, recognize_face dist m tolerance e = Ok r -> 0 <= r.2 <= 1) /\
  (forall m e r d,
      recognize_face dist m tolerance e = Ok r ->
      is_min_distance dist (known_encodings m) e d ->
      d <= tolerance -> r.2 == 1 - d) /\
  (forall m e r d,
      recognize_face dist m tolerance e = Ok r ->
      is_min_distance dist (known_encodings m) e d ->
      tolerance < d -> r = (Unknown, 0)) /\
  (forall m e,
      known_encodings m = [] ->
      recognize_face dist m tolerance e = Ok (Unknown, 0)) /\
  (forall m1 e1 r1 d1 m2 e2 r2 d2,
      recognize_face dist m1 tolerance e1 = Ok r1 ->
      recognize_face dist m2 tolerance e2 = Ok r2 ->
      is_min_distance dist (known_encodings m1) e1 d1 ->
      is_min_distance dist (known_encodings m2) e2 d2 ->
      d1 <= d2 -> r2.2 <= r1.2) /\
  (forall m1 e1 r1 d1 m2 e2 r2 d2,
      recognize_face dist m1 tolerance e1 = Ok r1 ->
      recognize_face dist m2 tolerance e2 = Ok r2 ->
      is_min_distance dist (known_encodings m1) e1 d1 ->
      is_min_distance dist (known_encodings m2) e2 d2 ->
      d1 < d2 -> d2 <= tolerance -> r2.2 < r1.2).
Proof.
  intros Hnonneg tolerance.
  assert (Htol : tolerance <= 1) by (unfold tolerance, Config.FACE_RECOGNITION_TOLERANCE; lra).
  assert (Hpos : forall known e d, is_min_distance dist known e d -> 0 <= d).
  { intros known e d [[j Hj] _]. rewrite face_distance_lookup in Hj.
    destruct (known !! j) as [k|]; [|done]. injection Hj as <-. apply Hnonneg. }
  split; [|split; [|split; [|split; [|split]]]].
  - intros m e r Hr.
    destruct (known_encodings m) as [|k0 ks] eqn:Ek.
    + rewrite (recognize_face_empty m tolerance e Ek) in Hr.
      injection Hr as <-. simpl. lra.
    + assert (Hne : known_encodings m <> []) by (rewrite Ek; done).
      destruct (recognize_face_best m tolerance e Hne) as (d & Hd & Hlow & _ & _).
      assert (Hmin : is_min_distance dist (known_encodings m) e d)
        by (split; [eauto | exact Hlow]).
      pose proof (Hpos _ _ _ Hmin).
      destruct (result_by_min m tolerance e r d Hr Hmin) as [[? Hc] | [? ->]];
        simpl; lra.
  - intros m e r d Hr Hmin Hle.
    destruct (result_by_min m tolerance e r d Hr Hmin) as [[? Hc] | [? ->]];
      [exact Hc | lra].
  - intros m e r d Hr Hmin Hlt.
    destruct (result_by_min m tolerance e r d Hr Hmin) as [[? Hc] | [? ->]];
      [lra | reflexivity].
  - intros m e. apply recognize_face_empty.
  - intros m1 e1 r1 d1 m2 e2 r2 d2 Hr1 Hr2 Hmin1 Hmin2 Hle.
    pose proof (Hpos _ _ _ Hmin1). pose proof (Hpos _ _ _ Hmin2).
    destruct (result_by_min m1 tolerance e1 r1 d1 Hr1 Hmin1) as [[? Hc1] | [? ->]];
    destruct (result_by_min m2 tolerance e2 r2 d2 Hr2 Hmin2) as [[? Hc2] | [? ->]];
      simpl; lra.
  - intros m1 e1 r1 d1 m2 e2 r2 d2 Hr1 Hr2 Hmin1 Hmin2 Hlt Hacc.
    destruct (result_by_min m1 tolerance e1 r1 d1 Hr1 Hmin1) as [[? Hc1] | [? ->]];
    destruct (result_by_min m2 tolerance e2 r2 d2 Hr2 Hmin2) as [[? Hc2] | [? ->]];
      simpl; lra.
Qed.

(** The index chosen by the scan, relative to any index attaining the
    minimum distance. *)
Lemma chosen_index_spec (m : FaceRecognitionModel Encoding)
    (tolerance : Q) (e : Encoding) (j : nat) (d : Q) :
  parallel m ->
  face_distance dist (known_encodings m) e !! j = Some d ->
  (forall (k : nat) (x : Q),
      face_distance dist (known_encodings m) e !! k = Some x -> d <= x) ->
  exists (i : nat) (name : string) (di : Q),
    (i <= j)%nat /\
    known_names m !! i = Some name /\
    face_distance dist (known_encodings m) e !! i = Some di /\ di == d /\
    (forall (k : nat) (x : Q), (k < i)%nat ->
        face_distance dist (known_encodings m) e !! k = Some x -> d < x) /\
    (d <= tolerance -> recognize_face dist m tolerance e = Ok (name, 1 - di)) /\
    (tolerance < d -> recognize_face dist m tolerance e = Ok (Unknown, 0)) /\
    (forall m' e', m' = m -> e' = e ->
        recognize_face dist m' tolerance e' = recognize_face dist m tolerance e).
Proof.
  intros Hpar Hj Hlow.
  assert (Hne : known_encodings m <> []).
  { intros E. rewrite E in Hj. done. }
  destruct (recognize_face_best m tolerance e Hne) as (d0 & Hd0 & Hlow0 & Hfirst & Heq).
  set (ds := face_distance dist (known_encodings m) e) in *.
  assert (Hdd : d0 == d).
  { apply Qle_antisym; [exact (Hlow0 j d Hj) | exact (Hlow _ d0 Hd0)]. }
  assert (Hlen : (argmin ds < length (known_names m))%nat).
  { rewrite <- Hpar. apply lookup_lt_Some in Hd0.
    subst ds. unfold face_distance in Hd0. rewrite length_map in Hd0. exact Hd0. }
  destruct (lookup_lt_is_Some_2 _ _ Hlen) as [name Hname].
  exists (argmin ds), name, d0.
  split.
  { destruct (le_lt_dec (argmin ds) j) as [Hle|Hgt]; [exact Hle|].
    pose proof (Hfirst j d Hgt Hj). lra. }
  split; [exact Hname|]. split; [exact Hd0|]. split; [exact Hdd|].
  split.
  { intros k x Hk Hx. pose proof (Hfirst k x Hk Hx). lra. }
  rewrite Heq, Hname.
  split; [|split].
  - intros Hle. replace (Qle_bool d0 tolerance) with true; [reflexivity|].
    symmetry. apply Qle_bool_true. lra.
  - intros Hlt. replace (Qle_bool d0 tolerance) with false; [reflexivity|].
    symmetry. apply Qle_bool_false. lra.
  - intros m' e' -> ->. rewrite Heq, Hname. reflexivity.
Qed.

(** C8 (amended). For every store and input, if index [j] attains the
    minimum distance [d], then the index used by the match is the lowest one
    attaining it: it is at most [j], its distance equals [d], and every
    earlier distance is strictly larger.  When [d] is within the tolerance
    the match returns the name stored at that index, with confidence 1 - d;
    a name is stored there whenever the two lists are equally long, and
    when the names list ends before that index the lookup raises
    [IndexError].  When [d] exceeds the tolerance the result is [Unknown].
    The result depends on the store and the input only through the list of
    distances and the list of names. *)
Theorem tie_break_lowest_index (m : FaceRecognitionModel Encoding)
    (tolerance : Q) (e : Encoding) (j : nat) (d : Q) :
  face_distance dist (known_encodings m) e !! j = Some d ->
  (forall (k : nat) (x : Q),
      face_distance dist (known_encodings m) e !! k = Some x -> d <= x) ->
  exists (i : nat) (di : Q),
    (i <= j)%nat /\
    face_distance dist (known_encodings m) e !! i = Some di /\ di == d /\
    (forall (k : nat) (x : Q), (k < i)%nat ->
        face_distance dist (known_encodings m) e !! k = Some x -> d < x) /\
    (d <= tolerance ->
       recognize_face dist m tolerance e =
         match known_names m !! i with
         | Some name => Ok (name, 1 - di)
         | None => Raise IndexError
         end) /\
    (tolerance < d -> recognize_face dist m tolerance e = Ok (Unknown, 0)) /\
    (parallel m -> exists name : string, known_names m !! i = Some name) /\
    (forall (m' : FaceRecognitionModel Encoding) (e' : Encoding),
        face_distance dist (known_encodings m') e' =
          face_distance dist (known_encodings m) e ->
        known_names m' = known_names m ->
        recognize_face dist m' tolerance e' = recognize_face dist m tolerance e).
Proof.
  intros Hj Hlow.
  assert (Hne : known_encodings m <> []).
  { intros E. rewrite E in Hj. done. }
  destruct (recognize_face_best m tolerance e Hne) as (d0 & Hd0 & Hlow0 & Hfirst & Heq).
  set (ds := face_distance dist (known_encodings m) e) in *.
  assert (Hdd : d0 == d).
  { apply Qle_antisym; [exact (Hlow0 j d Hj) | exact (Hlow _ d0 Hd0)]. }
  exists (argmin ds), d0.
  split.
  { destruct (le_lt_dec (argmin ds) j) as [Hle|Hgt]; [exact Hle|].
    pose proof (Hfirst j d Hgt Hj). lra. }
  split; [exact Hd0|]. split; [exact Hdd|].
  split.
  { intros k x Hk Hx. pose proof (Hfirst k x Hk Hx). lra. }
  split; [|split; [|split]].
  - intros Hle. rewrite Heq.
    replace (Qle_bool d0 tolerance) with true; [reflexivity|].
    symmetry. apply Qle_bool_true. lra.
  - intros Hlt. rewrite Heq.
    replace (Qle_bool d0 tolerance) with false; [reflexivity|].
    symmetry. apply Qle_bool_false. lra.
  - intros Hpar. apply lookup_lt_is_Some_2. rewrite <- Hpar.
    apply lookup_lt_Some in Hd0.
    subst ds. unfold face_distance in Hd0. rewrite length_map in Hd0. exact Hd0.
  - intros m' e' Hds Hns. unfold recognize_face, compare_faces.
    rewrite Hds, Hns. reflexivity.
Qed.

(** C4 (amended). On a store with parallel lists and a non-negative
    tolerance, an input equal to the encoding stored at index [j] is
    matched to the identity stored at [j], with confidence 1 (hence at
    least 1 - tolerance), provided every earlier entry holding the same
    encoding carries the same identity; and a store holding only
    [e1] under "alice" matches [e1] to "alice" with confidence 1. *)
Theorem equal_member_is_matched (m : FaceRecognitionModel Encoding)
    (tolerance : Q) (e : Encoding) (j : nat) (name : string) :
  metric dist ->
  parallel m ->
  0 <= tolerance ->
  known_encodings m !! j = Some e ->
  known_names m !! j = Some name ->
  (forall (i : nat) (n : string), (i < j)%nat ->
      known_encodings m !! i = Some e -> known_names m !! i = Some n ->
      n = name) ->
  (exists c : Q,
      recognize_face dist m tolerance e = Ok (name, c) /\
      c == 1 /\ 1 - tolerance <= c) /\
  (forall e1 : Encoding, exists c : Q,
      recognize_face dist
        {| known_encodings := [e1]; known_names := ["alice"%string] |}
        tolerance e1 = Ok ("alice"%string, c) /\ c == 1).
Proof.
  intros [Hnonneg Hself Hzero] Hpar Htol Hej Hnj Hearlier.
  split.
  - assert (Hdj : face_distance dist (known_encodings m) e !! j = Some (dist e e)).
    { rewrite face_distance_lookup, Hej. reflexivity. }
    assert (Hlowj : forall (k : nat) (x : Q),
               face_distance dist (known_encodings m) e !! k = Some x ->
               dist e e <= x).
    { intros k x Hx. rewrite face_distance_lookup in Hx.
      destruct (known_encodings m !! k) as [ek|]; [|done].
      injection Hx as <-. rewrite Hself. apply Hnonneg. }
    destruct (chosen_index_spec m tolerance e j (dist e e) Hpar Hdj Hlowj)
      as (i & n & di & Hij & Hn & Hdi & Hdd & _ & Hacc & _ & _).
    assert (Hdi0 : di == 0) by (rewrite Hdd; apply Hself).
    assert (n = name) as ->.
    { rewrite face_distance_lookup in Hdi.
      destruct (known_encodings m !! i) as [ei|] eqn:Hei; [|done].
      injection Hdi as <-. apply Hzero in Hdi0. subst ei.
      destruct (decide (i = j)) as [->|Hneq].
      - congruence.
      - apply (Hearlier i n); [lia | exact Hei | exact Hn]. }
    exists (1 - di). split; [|split].
    + apply Hacc. rewrite Hself. exact Htol.
    + lra.
    + lra.
  - intros e1. exists (1 - dist e1 e1). split; [|rewrite Hself; lra].
    unfold recognize_face, compare_faces, face_distance. simpl.
    replace (Qle_bool (dist e1 e1) tolerance) with true; [reflexivity|].
    symmetry. apply Qle_bool_true. rewrite Hself. exact Htol.
Qed.

End Recognition.

(** ** Concrete populations on the integer line *)

Lemma zdist_metric : metric zdist.
Proof.
  split.
  - intros a b. unfold zdist, Qle. simpl. lia.
  - intros a. unfold zdist. rewrite Z.sub_diag. reflexivity.
  - intros a b H. unfold zdist, Qeq in H. simpl in H. lia.
Qed.

Lemma far_match_is_unknown_witness :
  recognize_face zdist
    {| known_encodings := [0%Z; 10%Z]; known_names := ["alice"; "bob"]%string |}
    Config.FACE_RECOGNITION_TOLERANCE 5%Z = Ok (Unknown, 0).
Proof.
  apply far_match_is_unknown. intros k Hk.
  apply list_elem_of_In in Hk. simpl in Hk.
  destruct Hk as [<- | [<- | []]]; reflexivity.
Defined.

Lemma confidence_range_and_monotone_witness :
  0 <= snd ("alice"%string, 1 - zdist 3 3) <= 1.
Proof.
  destruct (confidence_range_and_monotone zdist (dist_nonneg zdist zdist_metric))
    as [Hrange _].
  apply (Hrange {| known_encodings := [3%Z]; known_names := ["alice"%string] |} 3%Z).
  reflexivity.
Defined.

Lemma tie_break_lowest_index_witness :
  exists c : Q,
    recognize_face zdist
      {| known_encodings := [5%Z; 3%Z; 3%Z];
         known_names := ["alice"; "bob"; "carol"]%string |}
      Config.FACE_RECOGNITION_TOLERANCE 3%Z = Ok ("bob"%string, c) /\ c == 1.
Proof.
  pose (m := {| known_encodings := [5%Z; 3%Z; 3%Z];
                known_names := ["alice"; "bob"; "carol"]%string |}).
  destruct (tie_break_lowest_index zdist m Config.FACE_RECOGNITION_TOLERANCE
              3%Z 2%nat 0)
    as (i & di & Hle & Hdi & Heq & Hfirst & Hacc & _).
  - reflexivity.
  - intros [|[|[|k]]] x Hx; simpl in Hx; try discriminate;
      injection Hx as <-; vm_compute; discriminate.
  - assert (i = 1%nat) as ->.
    { destruct i as [|[|[|i]]]; [|reflexivity| |lia].
      - simpl in Hdi. injection Hdi as <-. vm_compute in Heq. discriminate.
      - specialize (Hfirst 1%nat 0 ltac:(lia) eq_refl). vm_compute in Hfirst.
        discriminate. }
    exists (1 - di). split.
    + assert (Htol : 0 <= Config.FACE_RECOGNITION_TOLERANCE)
        by (vm_compute; discriminate).
      exact (Hacc Htol).
    + rewrite Heq. reflexivity.
Defined.

(** C8, as stated for every snapshot, fails on a store whose names list is
    shorter than its encodings list.  Such a store is what a restart loads
    after a registration whose save stopped at the names file: the two
    encodings of "bob" tie at distance 0 from the input, the lowest of
    their indices is 1, and the names list, which holds only "alice", has
    nothing there: the match raises [IndexError] and returns no identity. *)
Lemma tie_at_index_without_name :
  let m0 := {| known_encodings := [5%Z]; known_names := ["alice"%string] |} in
  let d0 := save_encodings SaveCompleted m0
              {| encodings_file := Missing; names_file := Missing |} in
  let d := (add_person SaveFailedAtNames "bob"%string
              [Some [3%Z]; Some [3%Z]] m0 d0).2 in
  let m := init_model d in
  m = {| known_encodings := [5%Z; 3%Z; 3%Z];
         known_names := ["alice"%string] |} /\
  face_distance zdist (known_encodings m) 3%Z = [2; 0; 0] /\
  recognize_face zdist m Config.FACE_RECOGNITION_TOLERANCE 3%Z =
    Raise IndexError /\
  ~ tie_returns_lowest_index zdist m Config.FACE_RECOGNITION_TOLERANCE 3%Z.
Proof.
  cbv zeta.
  split; [reflexivity|]. split; [reflexivity|]. split; [reflexivity|].
  intros H.
  destruct (H 1%nat 2%nat 0 0) as (name & c & Hname & _).
  - lia.
  - reflexivity.
  - reflexivity.
  - reflexivity.
  - intros [|[|[|k]]] x Hx; vm_compute in Hx; try discriminate;
      injection Hx as <-; vm_compute; discriminate.
  - intros [|[|k]] x Hk Hx; [|lia|lia].
    vm_compute in Hx. injection Hx as <-. reflexivity.
  - vm_compute. discriminate.
  - vm_compute in Hname. discriminate Hname.
Qed.

Lemma equal_member_is_matched_witness :
  exists c : Q,
    recognize_face zdist
      {| known_encodings := [7%Z; 3%Z]; known_names := ["bob"; "alice"]%string |}
      Config.FACE_RECOGNITION_TOLERANCE 3%Z = Ok ("alice"%string, c) /\
    c == 1 /\ 1 - Config.FACE_RECOGNITION_TOLERANCE <= c.
Proof.
  apply (equal_member_is_matched zdist
           {| known_encodings := [7%Z; 3%Z]; known_names := ["bob"; "alice"]%string |}
           Config.FACE_RECOGNITION_TOLERANCE 3%Z 1%nat "alice"%string).
  - exact zdist_metric.
  - reflexivity.
  - vm_compute. discriminate.
  - reflexivity.
  - reflexivity.
  - intros [|i] n Hi He Hn; [discriminate He | lia].
Defined.

(** C4, as stated, fails when one encoding is stored under two identities:
    the entry at the lower index wins, so the input equal to the encoding of
    "alice" at index 1 is matched to "bob". *)
Lemma equal_member_shadowed_by_duplicate :
  recognize_face zdist
    {| known_encodings := [3%Z; 3%Z]; known_names := ["bob"; "alice"]%string |}
    Config.FACE_RECOGNITION_TOLERANCE 3%Z = Ok ("bob"%string, 1 - zdist 3 3) /\
  ~ matches_every_equal_member zdist
      {| known_encodings := [3%Z; 3%Z]; known_names := ["bob"; "alice"]%string |}
      Config.FACE_RECOGNITION_TOLERANCE 3%Z.
Proof.
  split; [reflexivity|].
  intros H. destruct (H 1%nat "alice"%string eq_refl eq_refl) as (c & Hc & _).
  vm_compute in Hc. discriminate Hc.
Qed.

(** ** The store *)

Section Store.

Context {Encoding : Type}.
Implicit Types (m : FaceRecognitionModel Encoding) (d : Disk Encoding).

Lemma elem_of_get_known_names m (x : string) :
  x ∈ get_known_names m <-> x ∈ known_names m.
Proof.
  unfold get_known_names. rewrite elem_of_elements, elem_of_list_to_set.
  reflexivity.
Qed.

Lemma enumerate_from_app {A} (l l' : list A) : forall i : nat,
  enumerate_from i (l ++ l') =
  enumerate_from i l ++ enumerate_from (i + length l) l'.
Proof.
  induction l as [|x l IH]; intros i; simpl.
  - f_equal. lia.
  - rewrite IH. do 3 f_equal. lia.
Qed.

Lemma indices_to_remove_snoc (names : list string) (n name : string) :
  indices_to_remove (names ++ [n]) name =
  indices_to_remove names name ++
    (if decide (n = name) then [length names] else []).
Proof.
  unfold indices_to_remove.
  rewrite enumerate_from_app, filter_app, map_app. f_equal.
  simpl. rewrite filter_cons, filter_nil. simpl.
  destruct (decide (n = name)); reflexivity.
Qed.

Lemma indices_to_remove_nil_iff (names : list string) (name : string) :
  indices_to_remove names name = [] <-> name ∉ names.
Proof.
  induction names as [|n names IH] using rev_ind.
  - split; [intros _; apply not_elem_of_nil | reflexivity].
  - rewrite indices_to_remove_snoc, elem_of_app, list_elem_of_singleton.
    destruct (decide (n = name)) as [->|Hne].
    + split.
      * intros H. apply app_eq_nil in H as [_ H]. discriminate.
      * intros H. exfalso. apply H. right. reflexivity.
    + rewrite app_nil_r, IH. split.
      * intros H [Hin|Heq]; [exact (H Hin) | congruence].
      * intros H Hin. apply H. left. exact Hin.
Qed.

Lemma length_indices_to_remove (names : list string) (name : string) :
  length (indices_to_remove names name) =
  length (filter (fun n => n = name) names).
Proof.
  induction names as [|n names IH] using rev_ind; [reflexivity|].
  rewrite indices_to_remove_snoc, filter_app, !length_app, IH.
  rewrite filter_cons, filter_nil.
  destruct (decide (n = name)); reflexivity.
Qed.

Lemma del_app {A} (l l' l0 : list A) (i : nat) :
  del l i = Ok l0 -> del (l ++ l') i = Ok (l0 ++ l').
Proof.
  unfold del. destruct (i <? length l)%nat eqn:E; [|discriminate].
  apply Nat.ltb_lt in E. intros [= <-].
  replace (i <? length (l ++ l'))%nat with true
    by (symmetry; apply Nat.ltb_lt; rewrite length_app; lia).
  f_equal. revert i E. induction l as [|x l IH]; intros i E; simpl in *; [lia|].
  destruct i as [|i]; [reflexivity|]. simpl. f_equal. apply IH. lia.
Qed.

Lemma del_last {A} (l : list A) (x : A) : del (l ++ [x]) (length l) = Ok l.
Proof.
  unfold del.
  replace (length l <? length (l ++ [x]))%nat with true
    by (symmetry; apply Nat.ltb_lt; rewrite length_app; simpl; lia).
  rewrite delete_middle, app_nil_r. reflexivity.
Qed.

Lemma remove_at_app (idxs : list nat) : forall es ns es' ns' m0,
  remove_at idxs {| known_encodings := es; known_names := ns |} = Ok m0 ->
  remove_at idxs {| known_encodings := es ++ es'; known_names := ns ++ ns' |} =
  Ok {| known_encodings := known_encodings m0 ++ es';
        known_names := known_names m0 ++ ns' |}.
Proof.
  induction idxs as [|i idxs IH]; intros es ns es' ns' m0; simpl.
  - intros [= <-]. reflexivity.
  - destruct (del es i) as [es1|] eqn:Ee; [|discriminate].
    destruct (del ns i) as [ns1|] eqn:En; [|discriminate].
    simpl. rewrite (del_app _ es' _ _ Ee), (del_app _ ns' _ _ En). simpl.
    apply IH.
Qed.

(** The loop of [remove_person] on parallel lists is a filter on the
    (identity, encoding) pairs. *)
Lemma remove_at_spec (name : string) : forall (ns : list string) (es : list Encoding),
  length es = length ns ->
  remove_at (reverse (indices_to_remove ns name))
    {| known_encodings := es; known_names := ns |} =
  Ok {| known_encodings := (filter (fun p => p.1 <> name) (zip ns es)).*2;
        known_names := (filter (fun p => p.1 <> name) (zip ns es)).*1 |}.
Proof.
  induction ns as [|n ns IH] using rev_ind; intros es Hlen.
  - destruct es; [reflexivity | discriminate].
  - destruct es as [|x es _] using rev_ind.
    { rewrite length_app in Hlen. simpl in Hlen. lia. }
    rewrite !length_app in Hlen. simpl in Hlen.
    assert (Hlen' : length es = length ns) by lia.
    rewrite indices_to_remove_snoc.
    rewrite zip_with_app by (symmetry; exact Hlen').
    rewrite filter_app, !fmap_app. simpl.
    rewrite filter_cons, filter_nil. simpl.
    destruct (decide (n = name)) as [->|Hne].
    + rewrite reverse_snoc. simpl.
      rewrite <- Hlen' at 1. rewrite !del_last. simpl.
      destruct (decide (name <> name)) as [Hbad|_]; [congruence|].
      simpl. rewrite !app_nil_r. apply IH. exact Hlen'.
    + rewrite app_nil_r.
      destruct (decide (n <> name)) as [_|Hbad]; [|exfalso; exact (Hbad Hne)].
      simpl. rewrite (remove_at_app _ es ns [x] [n] _ (IH es Hlen')). reflexivity.
Qed.

Lemma names_of_entries m : parallel m -> known_names m = (entries m).*1.
Proof.
  intros H. unfold entries. symmetry. apply fst_zip.
  unfold parallel in H. lia.
Qed.

Lemma filter_id {A} (P : A -> Prop) `{!forall x, Decision (P x)} (l : list A) :
  (forall x, x ∈ l -> P x) -> filter P l = l.
Proof.
  induction l as [|x l IH]; intros Hall; [reflexivity|].
  rewrite filter_cons_True by (apply Hall; left).
  f_equal. apply IH. intros y Hy. apply Hall. right. exact Hy.
Qed.

(** [remove_person] on parallel lists: it returns, never raises; the
    pairs left are the pairs of the other identities, in their order. *)
Lemma remove_person_entries io (name : string) m d :
  parallel m ->
  exists ok n m' d',
    remove_person io name m d = Ok (ok, n, m', d') /\
    entries m' = filter (fun p => p.1 <> name) (entries m) /\
    parallel m' /\
    n = length (filter (fun x => x = name) (known_names m)) /\
    (name ∉ known_names m -> ok = false /\ n = O /\ m' = m /\ d' = d) /\
    (name ∈ known_names m -> ok = true).
Proof.
  intros Hpar. unfold remove_person.
  pose proof (length_indices_to_remove (known_names m) name) as Hcount.
  pose proof (indices_to_remove_nil_iff (known_names m) name) as Hnil.
  destruct (indices_to_remove (known_names m) name) as [|i idxs] eqn:Ei.
  - exists false, O, m, d. split; [reflexivity|].
    assert (Hnot : name ∉ known_names m) by (apply Hnil; reflexivity).
    split; [|split; [exact Hpar|split; [exact Hcount|split]]].
    + symmetry. apply filter_id. intros [n x] Hin Heq. simpl in Heq. subst n.
      apply Hnot. unfold entries in Hin. eapply elem_of_zip_l. exact Hin.
    + intros _. repeat split; reflexivity.
    + intros Hin. contradiction.
  - rewrite <- Ei.
    destruct m as [es ns]. unfold parallel in Hpar. simpl in *.
    rewrite (remove_at_spec name ns es Hpar). simpl.
    eexists true, _, _, _. split; [reflexivity|].
    split; [|split; [|split; [|split]]].
    + unfold entries. simpl. apply zip_fst_snd.
    + unfold parallel. simpl. rewrite !length_fmap. reflexivity.
    + rewrite Ei. exact Hcount.
    + intros Hnot. apply Hnil in Hnot. discriminate.
    + intros _. reflexivity.
Qed.

(** C9 (amended). On a store with parallel lists, [remove_person] returns (it never
    raises) a store whose pairs are exactly the pairs of the other
    identities, in their original order: the removed identity is no longer
    among the known names and every other identity is known as before.
    The number of removed encodings is the number owned; when the identity
    owns none, the result is the plain "nothing removed" outcome ([False],
    count 0) with the store and the files untouched. *)
Theorem remove_person_spec io (name : string) m d :
  parallel m ->
  exists ok n m' d',
    remove_person io name m d = Ok (ok, n, m', d') /\
    entries m' = filter (fun p => p.1 <> name) (entries m) /\
    parallel m' /\
    (name ∉ get_known_names m') /\
    (forall other : string, other <> name ->
        (other ∈ get_known_names m' <-> other ∈ get_known_names m)) /\
    n = length (filter (fun x => x = name) (known_names m)) /\
    (name ∉ get_known_names m -> ok = false /\ n = O /\ m' = m /\ d' = d) /\
    (name ∈ get_known_names m -> ok = true).
Proof.
  intros Hpar.
  destruct (remove_person_entries io name m d Hpar)
    as (ok & n & m' & d' & Heq & Hent & Hpar' & Hn & Hnone & Hsome).
  exists ok, n, m', d'. split; [exact Heq|]. split; [exact Hent|].
  split; [exact Hpar'|].
  assert (Hin : forall x : string,
             x ∈ known_names m' <-> x <> name /\ x ∈ known_names m).
  { intros x. rewrite (names_of_entries m' Hpar'), (names_of_entries m Hpar), Hent.
    rewrite !list_elem_of_fmap. split.
    - intros ([y e] & -> & Hy). apply list_elem_of_filter in Hy as [Hk Hy].
      split; [exact Hk|]. exists (y, e). split; [reflexivity | exact Hy].
    - intros [Hx ([y e] & -> & Hy)]. exists (y, e). split; [reflexivity|].
      apply list_elem_of_filter. split; [exact Hx | exact Hy]. }
  split.
  { rewrite elem_of_get_known_names, Hin. intros [Hbad _]. congruence. }
  split.
  { intros other Hother. rewrite !elem_of_get_known_names, Hin. tauto. }
  split; [exact Hn|].
  rewrite elem_of_get_known_names. split; assumption.
Qed.

(** *** The invariant of the parallel lists *)

Lemma add_person_parallel io (name : string) images m d :
  parallel m -> parallel (add_person io name images m d).1.2.
Proof.
  intros Hpar. unfold add_person.
  destruct (person_encodings images) as [|e pe]; [exact Hpar|].
  unfold parallel in *. simpl.
  rewrite !length_app. simpl. rewrite length_replicate. lia.
Qed.

Lemma add_person_entries io (name : string) images m d :
  parallel m ->
  entries (add_person io name images m d).1.2 =
  entries m ++ ((fun e => (name, e)) <$> person_encodings images).
Proof.
  intros Hpar. unfold add_person.
  destruct (person_encodings images) as [|e pe] eqn:E.
  - simpl. rewrite app_nil_r. reflexivity.
  - unfold entries. simpl.
    rewrite zip_with_app by (symmetry; exact Hpar). f_equal.
    simpl. f_equal. clear. induction pe as [|x pe IH]; simpl; [reflexivity|].
    f_equal. exact IH.
Qed.

Lemma load_encodings_parallel d m :
  parallel m -> disk_consistent d -> parallel (load_encodings d m).
Proof.
  intros Hpar Hd. unfold load_encodings, disk_consistent in *.
  destruct (encodings_file d), (names_file d); try exact Hpar;
    try reflexivity. exact Hd.
Qed.

Lemma save_encodings_consistent m d :
  parallel m -> disk_consistent (save_encodings SaveCompleted m d).
Proof. intros Hpar. exact Hpar. Qed.

End Store.

(** ** The invariant and the match *)

Lemma recognize_face_total {Encoding} (dist : Encoding -> Encoding -> Q)
    (m : FaceRecognitionModel Encoding) (tolerance : Q) (e : Encoding) :
  parallel m ->
  (known_encodings m <> [] ->
     (argmin (face_distance dist (known_encodings m) e) < length (known_names m))%nat) /\
  exists r, recognize_face dist m tolerance e = Ok r.
Proof.
  intros Hpar.
  assert (Hidx : known_encodings m <> [] ->
     (argmin (face_distance dist (known_encodings m) e) < length (known_names m))%nat).
  { intros Hne. rewrite <- Hpar.
    replace (length (known_encodings m))
      with (length (face_distance dist (known_encodings m) e))
      by (unfold face_distance; apply length_map).
    apply argmin_lt_length. unfold face_distance.
    destruct (known_encodings m); done. }
  split; [exact Hidx|].
  assert (Hcases : known_encodings m = [] \/ known_encodings m <> [])
    by (destruct (known_encodings m); [left | right]; done).
  destruct Hcases as [Ek|Hne].
  - exists (Unknown, 0). apply recognize_face_empty. exact Ek.
  - destruct (recognize_face_best dist m tolerance e Hne) as (d & _ & _ & _ & ->).
    destruct (lookup_lt_is_Some_2 _ _ (Hidx Hne)) as [name ->].
    destruct (Qle_bool d tolerance); eauto.
Qed.

(** C10 (amended). Adding a person and removing a person keep the two lists
    equally long and paired index by index (adding appends the new pairs,
    removing filters the pairs); loading yields equally long lists whenever
    the two files hold equally long lists, which is what a completed save
    of equally long lists writes; and on equally long lists the index
    chosen by the match is within the names list, so the match returns. *)
Theorem parallel_lists_invariant {Encoding} (dist : Encoding -> Encoding -> Q) :
  (forall io name images (m : FaceRecognitionModel Encoding) d,
      parallel m ->
      parallel (add_person io name images m d).1.2 /\
      entries (add_person io name images m d).1.2 =
        entries m ++ ((fun e => (name, e)) <$> person_encodings images)) /\
  (forall io name (m : FaceRecognitionModel Encoding) d,
      parallel m ->
      exists ok n m' d',
        remove_person io name m d = Ok (ok, n, m', d') /\
        parallel m' /\
        entries m' = filter (fun p => p.1 <> name) (entries m)) /\
  (forall (d : Disk Encoding) m,
      parallel m -> disk_consistent d -> parallel (load_encodings d m)) /\
  (forall (m : FaceRecognitionModel Encoding) d,
      parallel m -> disk_consistent (save_encodings SaveCompleted m d)) /\
  (forall (m : FaceRecognitionModel Encoding) tolerance e,
      parallel m ->
      (known_encodings m <> [] ->
         (argmin (face_distance dist (known_encodings m) e)
            < length (known_names m))%nat) /\
      exists r, recognize_face dist m tolerance e = Ok r).
Proof.
  split; [|split; [|split; [|split]]].
  - intros io name images m d Hpar. split.
    + apply add_person_parallel. exact Hpar.
    + apply add_person_entries. exact Hpar.
  - intros io name m d Hpar.
    destruct (remove_person_entries io name m d Hpar)
      as (ok & n & m' & d' & Heq & Hent & Hpar' & _).
    exists ok, n, m', d'. auto.
  - intros d m. apply load_encodings_parallel.
  - intros m d. apply save_encodings_consistent.
  - intros m tolerance e. apply recognize_face_total.
Qed.

Lemma parallel_lists_invariant_witness :
  parallel (load_encodings
    {| encodings_file := Pickled [1%Z; 2%Z];
       names_file := Pickled ["alice"; "bob"]%string |}
    {| known_encodings := []; known_names := [] |}).
Proof.
  destruct (parallel_lists_invariant zdist) as (_ & _ & Hload & _).
  apply Hload; reflexivity.
Defined.

Lemma remove_person_spec_witness :
  exists ok n m' d',
    remove_person SaveCompleted "alice"%string
      {| known_encodings := [1%Z; 2%Z; 3%Z];
         known_names := ["alice"; "bob"; "alice"]%string |}
      {| encodings_file := Missing; names_file := Missing |} = Ok (ok, n, m', d') /\
    ok = true /\ n = 2%nat /\ entries m' = [("bob"%string, 2%Z)].
Proof.
  destruct (remove_person_spec SaveCompleted "alice"%string
      {| known_encodings := [1%Z; 2%Z; 3%Z];
         known_names := ["alice"; "bob"; "alice"]%string |}
      {| encodings_file := Missing; names_file := Missing |})
    as (ok & n & m' & d' & Heq & Hent & _ & _ & _ & Hn & _ & Hok).
  - reflexivity.
  - exists ok, n, m', d'. split; [exact Heq|]. split.
    + apply Hok. apply elem_of_get_known_names. left.
    + split; [exact Hn | exact Hent].
Defined.

(** C9, as stated for every store state, fails on a store whose encodings
    list is shorter than its names list.  Such a store is what a restart
    loads after a removal whose save stopped at the names file: the names
    file still lists "bob" at index 1 while the encodings file holds one
    encoding.  Removing "bob" then raises [IndexError] at the first [del],
    before anything is deleted, and "bob" is still a known name. *)
Lemma remove_raises_on_shorter_encodings :
  let m0 := {| known_encodings := [1%Z; 2%Z];
               known_names := ["alice"; "bob"]%string |} in
  let d0 := save_encodings SaveCompleted m0
              {| encodings_file := Missing; names_file := Missing |} in
  let d := {| encodings_file := Pickled [1%Z];
              names_file := Pickled ["alice"; "bob"]%string |} in
  let m := init_model d in
  remove_person SaveFailedAtNames "bob"%string m0 d0 =
    Ok (true, 1%nat,
        {| known_encodings := [1%Z]; known_names := ["alice"%string] |}, d) /\
  m = {| known_encodings := [1%Z]; known_names := ["alice"; "bob"]%string |} /\
  remove_person SaveCompleted "bob"%string m d = Raise IndexError /\
  remove_at_partial (reverse (indices_to_remove (known_names m) "bob"%string)) m
    = m /\
  "bob"%string ∈ get_known_names m /\
  ~ remove_forgets_person Z.
Proof.
  cbv zeta.
  split; [reflexivity|]. split; [reflexivity|]. split; [reflexivity|].
  split; [reflexivity|]. split.
  - apply elem_of_get_known_names. right. left.
  - intros H.
    destruct (H SaveCompleted "bob"%string
                {| known_encodings := [1%Z];
                   known_names := ["alice"; "bob"]%string |}
                {| encodings_file := Pickled [1%Z];
                   names_file := Pickled ["alice"; "bob"]%string |})
      as (ok & n & m' & d' & Heq & _).
    vm_compute in Heq. discriminate Heq.
Qed.

(** C10, as stated, fails for loading: [load_encodings] takes whatever the
    two files hold.  A save that stops after the first file leaves such
    files behind; loading them gives lists of lengths 2 and 1, and matching
    an input nearest to index 1 then raises [IndexError]. *)
Lemma load_breaks_parallel :
  let m0 := {| known_encodings := [1%Z]; known_names := ["alice"%string] |} in
  let d0 := save_encodings SaveCompleted m0
              {| encodings_file := Missing; names_file := Missing |} in
  let d := (add_person SaveFailedAtNames "bob"%string [Some [2%Z]] m0 d0).2 in
  let empty := {| known_encodings := []; known_names := [] |} in
  d = {| encodings_file := Pickled [1%Z; 2%Z];
         names_file := Pickled ["alice"%string] |} /\
  parallel empty /\
  ~ parallel (load_encodings d empty) /\
  recognize_face zdist (load_encodings d empty)
    Config.FACE_RECOGNITION_TOLERANCE 2%Z = Raise IndexError /\
  ~ load_preserves_parallel Z.
Proof.
  cbv zeta.
  split; [reflexivity|]. split; [reflexivity|]. split; [discriminate|].
  split; [reflexivity|].
  intros H.
  specialize (H {| encodings_file := Pickled [1%Z; 2%Z];
                   names_file := Pickled ["alice"%string] |}
                {| known_encodings := []; known_names := [] |} eq_refl).
  discriminate H.
Qed.

(** ** The durable recorder *)

Lemma mark_attendance_suppressed (name : string) (confidence : option Q)
    (d : AttendanceDatabase) :
  let now' := now_at (clock d) (S (reads (clock d))) in
  recent_rows d name (strftime_datetime (now' - timedelta_minutes 5)) <> [] ->
  mark_attendance name confidence d =
    (with_clock {| now_at := now_at (clock d); reads := S (S (reads (clock d))) |} d,
     Ok (false, already_marked)).
Proof.
  intros now' Hrecent.
  unfold mark_attendance, is_recent_attendance, recent_rows in *. simpl.
  fold now'.
  destruct (filter _ (attendance d)) as [|r rs]; [done|]. reflexivity.
Qed.

(** What a call of [mark_attendance] can do to the rows: nothing, or append
    one row carrying the given name and confidence. *)
Lemma mark_attendance_rows (name : string) (confidence : option Q)
    (d d' : AttendanceDatabase) (r : result (bool * string)) :
  mark_attendance name confidence d = (d', r) ->
  (attendance d' = attendance d /\ r <> Ok (true, marked_successfully)) \/
  (exists row, attendance d' = attendance d ++ [row] /\
               att_name row = name /\ att_confidence row = confidence /\
               r <> Ok (false, already_marked)).
Proof.
  unfold mark_attendance, is_recent_attendance, log_to_csv. simpl.
  destruct (0 <? _)%nat.
  - intros [= <- <-]. left. split; [reflexivity | discriminate].
  - destruct (db_writable d); simpl.
    + destruct (csv_writable d); simpl; intros [= <- <-]; right;
        eexists; (split; [reflexivity|]); simpl; repeat split; discriminate.
    + intros [= <- <-]. left. split; [reflexivity | discriminate].
Qed.

(** An unwritable database makes the call raise, unless a recent row
    suppresses it first; no row is added. *)
Lemma mark_attendance_unwritable (name : string) (confidence : option Q)
    (d d' : AttendanceDatabase) (e : exn) :
  db_writable d = false ->
  mark_attendance name confidence d = (d', Raise e) ->
  e = OperationalError /\ attendance d' = attendance d /\ csv_log d' = csv_log d.
Proof.
  intros Hw. unfold mark_attendance, is_recent_attendance. simpl.
  destruct (0 <? _)%nat; [discriminate|].
  rewrite Hw. intros [= <- <-]. repeat split; reflexivity.
Qed.

(** C2. Two calls of the durable recorder 299.6 seconds apart, at
    10:00:00.9 and 10:05:00.5 of one day: the stored text of the first
    instant and the text of the cutoff of the second are both
    "10:00:00", the comparison is strict, and the second call is not
    suppressed: it reports success and a second row is stored. *)
Lemma durable_duplicate_within_window :
  let t1 := 36000900000%Z in
  let t2 := 36300500000%Z in
  let db0 := fresh_database (clock_of [t1; t1 + 150; t2; t2 + 150]%Z) in
  let db1 := (mark_attendance "bob" (Some (9 # 10)) db0).1 in
  let r1 := (mark_attendance "bob" (Some (9 # 10)) db0).2 in
  let db2 := (mark_attendance "bob" (Some (9 # 10)) db1).1 in
  let r2 := (mark_attendance "bob" (Some (9 # 10)) db1).2 in
  (0 <= t2 - t1 < timedelta_minutes 5)%Z /\
  r1 = Ok (true, marked_successfully) /\
  r2 = Ok (true, marked_successfully) /\
  map att_name (attendance db2) = ["bob"; "bob"]%string /\
  map att_timestamp (attendance db2) = [36000%Z; 36300%Z] /\
  length (csv_log db2) = 2%nat.
Proof. vm_compute. repeat split; congruence. Qed.

(** With whole-second readings the second call is suppressed: the query
    finds the row of the first. *)
Lemma durable_duplicate_suppressed_on_whole_seconds
    (name : string) (c : option Q) (d : AttendanceDatabase) (row : AttendanceRow) :
  let now' := now_at (clock d) (S (reads (clock d))) in
  row ∈ attendance d -> att_name row = name ->
  (strftime_datetime now' - att_timestamp row < 300)%Z ->
  exists d',
    mark_attendance name c d = (d', Ok (false, already_marked)) /\
    attendance d' = attendance d /\ csv_log d' = csv_log d.
Proof.
  intros now' Hin Hname Hlt.
  eexists. split.
  - apply mark_attendance_suppressed. simpl. fold now'.
    intros Hnil. unfold recent_rows in Hnil.
    apply filter_nil_not_elem_of with (x := row) in Hnil; [exact (Hnil Hin)|].
    cbv beta. split; [exact Hname|].
    unfold strftime_datetime, timedelta_minutes in *.
    replace (now' - 5 * 60 * 1000000)%Z with (now' + (-300) * 1000000)%Z by lia.
    rewrite Z.div_add by lia. lia.
  - split; reflexivity.
Qed.

(** ** The attendance loop and its cooldown map *)

Section Attendance.

(** The configured confidence floor and cooldown, in minutes. *)
Variables (threshold minutes : Q).

Lemma within_cooldown_iff (last : gmap string Q) (name : string) (t0 t : Q) :
  last !! name = Some t0 ->
  within_cooldown minutes last name t = true <-> t - t0 < minutes * 60.
Proof.
  intros H. unfold within_cooldown. rewrite H. apply Qlt_bool_iff.
Qed.

(** The three ways through one iteration. *)
Lemma process_face_skipped t s (name : string) c :
  name = Unknown \/ c < threshold ->
  process_face threshold minutes t s name c = (s, Ok tt).
Proof.
  intros H. unfold process_face.
  destruct H as [-> | H].
  - reflexivity.
  - apply Qlt_bool_iff in H. rewrite H, orb_true_r. reflexivity.
Qed.

Lemma filter_passed (name : string) c :
  name <> Unknown -> threshold <= c ->
  bool_decide (name = Unknown) || Qlt_bool c threshold = false.
Proof.
  intros Hn Hc. rewrite bool_decide_eq_false_2 by exact Hn.
  simpl. apply Qlt_bool_false. exact Hc.
Qed.

Lemma filter_passed_inv (name : string) c :
  bool_decide (name = Unknown) || Qlt_bool c threshold = false ->
  name <> Unknown /\ threshold <= c.
Proof.
  intros H. apply orb_false_iff in H as [Hn Hc].
  split; [apply bool_decide_eq_false in Hn; exact Hn | apply Qlt_bool_false; exact Hc].
Qed.

Lemma process_face_cooldown t s (name : string) c :
  name <> Unknown -> threshold <= c ->
  within_cooldown minutes (last_attendance s) name t = true ->
  process_face threshold minutes t s name c = (log (GuardConsulted name) s, Ok tt).
Proof.
  intros Hn Hc Hw. unfold process_face.
  rewrite (filter_passed name c Hn Hc). simpl. rewrite Hw. reflexivity.
Qed.

Lemma process_face_marks t s (name : string) c :
  name <> Unknown -> threshold <= c ->
  within_cooldown minutes (last_attendance s) name t = false ->
  process_face threshold minutes t s name c =
    let tr := trace s ++ [GuardConsulted name] ++ [RecorderInvoked name c] in
    match mark_attendance name (Some c) (db s) with
    | (db', Ok (true, _)) =>
        ({| last_attendance := <[name := t]> (last_attendance s);
            db := db'; trace := tr ++ [PrintedMarked name c] |}, Ok tt)
    | (db', Ok (false, message)) =>
        ({| last_attendance := last_attendance s;
            db := db'; trace := tr ++ [PrintedWarning message name] |}, Ok tt)
    | (db', Raise e) =>
        ({| last_attendance := last_attendance s; db := db'; trace := tr |},
         Raise e)
    end.
Proof.
  intros Hn Hc Hw. unfold process_face.
  rewrite (filter_passed name c Hn Hc). simpl. rewrite Hw. simpl.
  destruct (mark_attendance name (Some c) (db s)) as [db' [[[] msg]|e]];
    unfold log; simpl; rewrite <- ?app_assoc; reflexivity.
Qed.

(** C1. Once the cooldown map holds instant [t0] for a person (which is
    what a successful marking at [t0] leaves there), an attempt for that
    person at any [t] with [t0 <= t < t0 + window] is suppressed by the
    in-memory check: the recorder is not called, the database and the map
    are unchanged; at any [t >= t0 + window], the boundary included, the
    check lets the attempt through to the recorder. *)
Theorem cooldown_window (s : AttendanceSystem) (name : string) (t0 t c : Q) :
  last_attendance s !! name = Some t0 ->
  let window := minutes * 60 in
  (t0 <= t -> t < t0 + window ->
     within_cooldown minutes (last_attendance s) name t = true /\
     (process_face threshold minutes t s name c).2 = Ok tt /\
     db (process_face threshold minutes t s name c).1 = db s /\
     last_attendance (process_face threshold minutes t s name c).1 = last_attendance s /\
     (trace (process_face threshold minutes t s name c).1 = trace s \/
      trace (process_face threshold minutes t s name c).1 = trace s ++ [GuardConsulted name])) /\
  (t0 + window <= t ->
     within_cooldown minutes (last_attendance s) name t = false /\
     (name <> Unknown -> threshold <= c ->
        exists rest,
          trace (process_face threshold minutes t s name c).1 =
            trace s ++ GuardConsulted name :: RecorderInvoked name c :: rest)) /\
  (forall s0 c0,
     PrintedMarked name c0 ∈ drop (length (trace s0)) (trace (process_face threshold minutes t0 s0 name c0).1) ->
     last_attendance (process_face threshold minutes t0 s0 name c0).1 !! name = Some t0).
Proof.
  intros Hlast window. split; [|split].
  - intros Hge Hlt.
    assert (Hw : within_cooldown minutes (last_attendance s) name t = true).
    { apply (within_cooldown_iff _ _ t0); [exact Hlast | unfold window in Hlt; lra]. }
    split; [exact Hw|].
    destruct (bool_decide (name = Unknown) || Qlt_bool c threshold) eqn:E.
    + assert (Hs : process_face threshold minutes t s name c = (s, Ok tt)).
      { unfold process_face. rewrite E. reflexivity. }
      rewrite Hs. simpl. auto.
    + apply filter_passed_inv in E as [Hn Hc].
      rewrite (process_face_cooldown t s name c Hn Hc Hw). simpl. auto.
  - intros Hge.
    assert (Hw : within_cooldown minutes (last_attendance s) name t = false).
    { destruct (within_cooldown minutes (last_attendance s) name t) eqn:E; [|reflexivity].
      apply (within_cooldown_iff _ _ t0 t Hlast) in E. unfold window in Hge. lra. }
    split; [exact Hw|].
    intros Hn Hc. rewrite (process_face_marks t s name c Hn Hc Hw). cbv zeta.
    destruct (mark_attendance name (Some c) (db s)) as [db' [[[] msg]|e]];
      simpl; rewrite <- ?app_assoc; simpl; eauto.
  - intros s0 c0.
    destruct (bool_decide (name = Unknown) || Qlt_bool c0 threshold) eqn:E.
    + assert (Hs : process_face threshold minutes t0 s0 name c0 = (s0, Ok tt)).
      { unfold process_face. rewrite E. reflexivity. }
      rewrite Hs. simpl. rewrite drop_all. intros H. inversion H.
    + apply filter_passed_inv in E as [Hn Hc].
      destruct (within_cooldown minutes (last_attendance s0) name t0) eqn:Hw.
      * rewrite (process_face_cooldown t0 s0 name c0 Hn Hc Hw). simpl.
        rewrite drop_app_length. intros H.
        apply list_elem_of_singleton in H. discriminate.
      * rewrite (process_face_marks t0 s0 name c0 Hn Hc Hw). cbv zeta.
        destruct (mark_attendance name (Some c0) (db s0)) as [db' [[[] msg]|e]];
          simpl; rewrite <- ?app_assoc, ?drop_app_length; simpl; intros H.
        -- apply lookup_insert_eq.
        -- rewrite !elem_of_cons in H. destruct H as [H|[H|[H|H]]];
             try discriminate. inversion H.
        -- rewrite !elem_of_cons in H. destruct H as [H|[H|H]];
             try discriminate. inversion H.
Qed.

(** Membership in an empty or a one-element list, as a hypothesis. *)
Ltac member_cases :=
  match goal with
  | H : _ ∈ [] |- _ => inversion H
  | H : _ ∈ [_] |- _ => apply list_elem_of_singleton in H; try discriminate H
  end.

(** What one iteration adds to the trace and to the attendance table. *)
Lemma process_face_effects t s (name : string) c s' r :
  process_face threshold minutes t s name c = (s', r) ->
  ((name = Unknown \/ c < threshold) /\ s' = s /\ r = Ok tt) \/
  (name <> Unknown /\ threshold <= c /\
   exists evs rows,
     trace s' = trace s ++ evs /\
     attendance (db s') = attendance (db s) ++ rows /\
     (forall n, GuardConsulted n ∈ evs -> n = name) /\
     (forall n c', RecorderInvoked n c' ∈ evs -> n = name /\ c' = c) /\
     (forall row, row ∈ rows ->
        att_name row = name /\ att_confidence row = Some c)).
Proof.
  intros H.
  destruct (bool_decide (name = Unknown) || Qlt_bool c threshold) eqn:E.
  - left. unfold process_face in H. rewrite E in H. injection H as <- <-.
    split; [|split; reflexivity].
    apply orb_true_iff in E as [E|E].
    + left. apply bool_decide_eq_true in E. exact E.
    + right. apply Qlt_bool_iff. exact E.
  - right. apply filter_passed_inv in E as [Hn Hc].
    split; [exact Hn|]. split; [exact Hc|].
    destruct (within_cooldown minutes (last_attendance s) name t) eqn:Hw.
    + rewrite (process_face_cooldown t s name c Hn Hc Hw) in H.
      injection H as <- <-. exists [GuardConsulted name], [].
      simpl. rewrite app_nil_r.
      split; [reflexivity|]. split; [reflexivity|].
      split; [|split].
      * intros n Hin. member_cases. congruence.
      * intros n c' Hin. member_cases.
      * intros row Hin. member_cases.
    + rewrite (process_face_marks t s name c Hn Hc Hw) in H. cbv zeta in H.
      destruct (mark_attendance name (Some c) (db s)) as [db' res] eqn:Em.
      pose proof (mark_attendance_rows _ _ _ _ _ Em) as Hrows.
      assert (Hrows' : exists rows,
                 attendance db' = attendance (db s) ++ rows /\
                 (forall row, row ∈ rows ->
                    att_name row = name /\ att_confidence row = Some c)).
      { destruct Hrows as [[Heq _] | (row & Heq & Hrn & Hrc & _)].
        - exists []. rewrite app_nil_r. split; [exact Heq|].
          intros row Hin. inversion Hin.
        - exists [row]. split; [exact Heq|].
          intros row' Hin. apply list_elem_of_singleton in Hin. subst row'. auto. }
      destruct Hrows' as (rows & Hatt & Hrowsok).
      assert (Hev : forall tail : list event,
                 (forall n, GuardConsulted n ∉ tail) ->
                 (forall n c', RecorderInvoked n c' ∉ tail) ->
                 (forall n, GuardConsulted n ∈
                      [GuardConsulted name] ++ [RecorderInvoked name c] ++ tail ->
                    n = name) /\
                 (forall n c', RecorderInvoked n c' ∈
                      [GuardConsulted name] ++ [RecorderInvoked name c] ++ tail ->
                    n = name /\ c' = c)).
      { intros tail Hg Hr. split.
        - intros n Hin. simpl in Hin. rewrite !elem_of_cons in Hin.
          destruct Hin as [Hin|[Hin|Hin]]; [congruence | discriminate |].
          exfalso. exact (Hg n Hin).
        - intros n c' Hin. simpl in Hin. rewrite !elem_of_cons in Hin.
          destruct Hin as [Hin|[Hin|Hin]]; [discriminate | split; congruence |].
          exfalso. exact (Hr n c' Hin). }
      destruct res as [[[] msg]|e]; injection H as <- <-; simpl.
      * exists ([GuardConsulted name] ++ [RecorderInvoked name c]
                  ++ [PrintedMarked name c]), rows.
        rewrite <- ?app_assoc. split; [reflexivity|]. split; [exact Hatt|].
        destruct (Hev [PrintedMarked name c]) as [Hg Hr].
        { intros n Hin. member_cases. }
        { intros n c' Hin. member_cases. }
        auto.
      * exists ([GuardConsulted name] ++ [RecorderInvoked name c]
                  ++ [PrintedWarning msg name]), rows.
        rewrite <- ?app_assoc. split; [reflexivity|]. split; [exact Hatt|].
        destruct (Hev [PrintedWarning msg name]) as [Hg Hr].
        { intros n Hin. member_cases. }
        { intros n c' Hin. member_cases. }
        auto.
      * exists ([GuardConsulted name] ++ [RecorderInvoked name c] ++ []), rows.
        rewrite ?app_nil_r, <- ?app_assoc. split; [reflexivity|].
        split; [exact Hatt|].
        destruct (Hev []) as [Hg Hr].
        { intros n Hin. member_cases. }
        { intros n c' Hin. member_cases. }
        rewrite app_nil_r in Hg, Hr. auto.
Qed.

Lemma process_faces_effects t (faces : list (string * Q)) : forall s s' r,
  process_faces threshold minutes t s faces = (s', r) ->
  exists evs rows,
    trace s' = trace s ++ evs /\
    attendance (db s') = attendance (db s) ++ rows /\
    (forall n, GuardConsulted n ∈ evs ->
       exists c, (n, c) ∈ faces /\ n <> Unknown /\ threshold <= c) /\
    (forall n c, RecorderInvoked n c ∈ evs ->
       (n, c) ∈ faces /\ n <> Unknown /\ threshold <= c) /\
    (forall row, row ∈ rows ->
       exists c, att_confidence row = Some c /\ (att_name row, c) ∈ faces /\
                 att_name row <> Unknown /\ threshold <= c).
Proof.
  induction faces as [|[name c] rest IH]; intros s s' r H; simpl in H.
  - injection H as <- <-. exists [], []. rewrite !app_nil_r.
    split; [reflexivity|]. split; [reflexivity|].
    split; [|split]; intros; member_cases.
  - destruct (process_face threshold minutes t s name c) as [s1 r1] eqn:E1.
    assert (Hrest : exists evs2 rows2,
               trace s' = trace s1 ++ evs2 /\
               attendance (db s') = attendance (db s1) ++ rows2 /\
               (forall n, GuardConsulted n ∈ evs2 ->
                  exists c, (n, c) ∈ rest /\ n <> Unknown /\ threshold <= c) /\
               (forall n c, RecorderInvoked n c ∈ evs2 ->
                  (n, c) ∈ rest /\ n <> Unknown /\ threshold <= c) /\
               (forall row, row ∈ rows2 ->
                  exists c, att_confidence row = Some c /\ (att_name row, c) ∈ rest /\
                            att_name row <> Unknown /\ threshold <= c)).
    { destruct r1 as [[]|e].
      - exact (IH s1 s' r H).
      - injection H as <- <-. exists [], []. rewrite !app_nil_r.
        split; [reflexivity|]. split; [reflexivity|].
        split; [|split]; intros; member_cases. }
    destruct Hrest as (evs2 & rows2 & Htr2 & Hat2 & Hg2 & Hr2 & Hrow2).
    destruct (process_face_effects t s name c s1 r1 E1)
      as [(_ & -> & _) | (Hn & Hc & evs1 & rows1 & Htr1 & Hat1 & Hg1 & Hr1 & Hrow1)].
    + exists evs2, rows2. split; [exact Htr2|]. split; [exact Hat2|].
      split; [|split].
      * intros n Hin. destruct (Hg2 n Hin) as (c' & Hin' & ?).
        exists c'. split; [right; exact Hin' | assumption].
      * intros n c' Hin. destruct (Hr2 n c' Hin) as (Hin' & ?).
        split; [right; exact Hin' | assumption].
      * intros row Hin. destruct (Hrow2 row Hin) as (c' & ? & Hin' & ?).
        exists c'. split; [assumption|]. split; [right; exact Hin' | assumption].
    + exists (evs1 ++ evs2), (rows1 ++ rows2).
      rewrite Htr2, Htr1, Hat2, Hat1, <- !app_assoc.
      split; [reflexivity|]. split; [reflexivity|].
      split; [|split].
      * intros n Hin. apply elem_of_app in Hin as [Hin|Hin].
        -- rewrite (Hg1 n Hin). exists c. split; [left | auto].
        -- destruct (Hg2 n Hin) as (c' & Hin' & ?).
           exists c'. split; [right; exact Hin' | assumption].
      * intros n c' Hin. apply elem_of_app in Hin as [Hin|Hin].
        -- destruct (Hr1 n c' Hin) as [-> ->]. split; [left | auto].
        -- destruct (Hr2 n c' Hin) as (Hin' & ?).
           split; [right; exact Hin' | assumption].
      * intros row Hin. apply elem_of_app in Hin as [Hin|Hin].
        -- destruct (Hrow1 row Hin) as [Hrn Hrc]. exists c.
           rewrite Hrn. split; [exact Hrc|]. split; [left | auto].
        -- destruct (Hrow2 row Hin) as (c' & ? & Hin' & ?).
           exists c'. split; [assumption|]. split; [right; exact Hin' | assumption].
Qed.

(** C5. A face whose name is [Unknown] or whose confidence is below the
    floor leaves the whole state as it is: the cooldown map is not
    consulted and the recorder is not called.  Over a frame, every
    consultation of the map, every call of the recorder and every row
    added to the attendance table belongs to a face of the frame whose
    name is not [Unknown] and whose confidence is at least the floor. *)
Theorem unknown_and_low_confidence_discarded :
  (forall t s (name : string) c,
      name = Unknown \/ c < threshold ->
      process_face threshold minutes t s name c = (s, Ok tt)) /\
  (forall t s face_names face_confidences s' r,
      process_attendance threshold minutes t s face_names face_confidences = (s', r) ->
      exists evs rows,
        trace s' = trace s ++ evs /\
        attendance (db s') = attendance (db s) ++ rows /\
        (forall n, GuardConsulted n ∈ evs ->
           exists c, (n, c) ∈ zip face_names face_confidences /\
                     n <> Unknown /\ threshold <= c) /\
        (forall n c, RecorderInvoked n c ∈ evs ->
           (n, c) ∈ zip face_names face_confidences /\
           n <> Unknown /\ threshold <= c) /\
        (forall row, row ∈ rows ->
           exists c, att_confidence row = Some c /\
                     (att_name row, c) ∈ zip face_names face_confidences /\
                     att_name row <> Unknown /\ threshold <= c)).
Proof.
  split.
  - apply process_face_skipped.
  - intros t s face_names face_confidences s' r H.
    apply (process_faces_effects t _ s s' r). exact H.
Qed.

(** C7 (amended). When the durable write raises inside an iteration, the
    exception is the one raised by [mark_attendance] and nothing in
    [process_attendance] catches it: the cooldown map is left exactly as
    it was (the entry is written only after a successful write), the rest
    of the frame is not processed, and the exception is the result of the
    whole call, so the failure reaches the caller instead of being
    dropped. *)
Theorem durability_failure_propagates t s (name : string) c s' e :
  process_face threshold minutes t s name c = (s', Raise e) ->
  mark_attendance name (Some c) (db s) = (db s', Raise e) /\
  last_attendance s' = last_attendance s /\
  trace s' = trace s ++ [GuardConsulted name; RecorderInvoked name c] /\
  (forall rest,
      process_faces threshold minutes t s ((name, c) :: rest) = (s', Raise e)) /\
  (db_writable (db s) = false ->
      e = OperationalError /\
      attendance (db s') = attendance (db s) /\ csv_log (db s') = csv_log (db s)).
Proof.
  intros H.
  destruct (bool_decide (name = Unknown) || Qlt_bool c threshold) eqn:E.
  { unfold process_face in H. rewrite E in H. discriminate. }
  apply filter_passed_inv in E as [Hn Hc].
  destruct (within_cooldown minutes (last_attendance s) name t) eqn:Hw.
  { rewrite (process_face_cooldown t s name c Hn Hc Hw) in H. discriminate. }
  pose proof H as H0.
  rewrite (process_face_marks t s name c Hn Hc Hw) in H. cbv zeta in H.
  destruct (mark_attendance name (Some c) (db s)) as [db' [[[] msg]|e']] eqn:Em;
    try discriminate.
  injection H as <- <-. simpl.
  split; [reflexivity|]. split; [reflexivity|]. split; [reflexivity|].
  split.
  - intros rest. simpl. rewrite H0. reflexivity.
  - intros Hw'. apply (mark_attendance_unwritable _ _ _ _ _ Hw' Em).
Qed.

(** After [reset_cooldown] nobody is within the cooldown. *)
Lemma reset_cooldown_eligible s (name : string) t :
  within_cooldown minutes (last_attendance (reset_cooldown s)) name t = false.
Proof. unfold within_cooldown, reset_cooldown. simpl. rewrite lookup_empty. reflexivity. Qed.

End Attendance.

(** ** Scenarios with the configured constants *)

Lemma cooldown_window_witness :
  let s := {| last_attendance := {["bob"%string := 0]};
              db := fresh_database (clock_of []); trace := [] |} in
  let minutes := Config.ATTENDANCE_COOLDOWN_MINUTES in
  within_cooldown minutes (last_attendance s) "bob" 299 = true /\
  within_cooldown minutes (last_attendance s) "bob" 300 = false /\
  within_cooldown minutes (last_attendance s) "bob" 301 = false.
Proof.
  intros s minutes.
  assert (Hlast : last_attendance s !! "bob"%string = Some 0)
    by apply lookup_singleton_eq.
  split; [|split].
  - destruct (cooldown_window Config.CONFIDENCE_THRESHOLD minutes
                s "bob"%string 0 299 (9 # 10) Hlast) as [Hin _].
    apply Hin; vm_compute; congruence.
  - destruct (cooldown_window Config.CONFIDENCE_THRESHOLD minutes
                s "bob"%string 0 300 (9 # 10) Hlast) as (_ & Hout & _).
    apply Hout; vm_compute; congruence.
  - destruct (cooldown_window Config.CONFIDENCE_THRESHOLD minutes
                s "bob"%string 0 301 (9 # 10) Hlast) as (_ & Hout & _).
    apply Hout; vm_compute; congruence.
Defined.

Lemma unknown_and_low_confidence_discarded_witness :
  let s := fresh_system (fresh_database (clock_of [])) in
  process_face Config.CONFIDENCE_THRESHOLD Config.ATTENDANCE_COOLDOWN_MINUTES
    100 s "alice" (55 # 100) = (s, Ok tt) /\
  process_face Config.CONFIDENCE_THRESHOLD Config.ATTENDANCE_COOLDOWN_MINUTES
    100 s Unknown 0 = (s, Ok tt).
Proof.
  intros s.
  destruct (unknown_and_low_confidence_discarded Config.CONFIDENCE_THRESHOLD
              Config.ATTENDANCE_COOLDOWN_MINUTES) as [Hskip _].
  split.
  - apply Hskip. right. vm_compute. reflexivity.
  - apply Hskip. left. reflexivity.
Defined.

Lemma durability_failure_propagates_witness :
  let s := fresh_system (unwritable_database (clock_of [36000900000%Z; 36000900150%Z])) in
  let out := process_face Config.CONFIDENCE_THRESHOLD
               Config.ATTENDANCE_COOLDOWN_MINUTES 100 s "bob" (9 # 10) in
  out.2 = Raise OperationalError /\
  last_attendance out.1 = last_attendance s /\
  attendance (db out.1) = attendance (db s).
Proof.
  intros s out.
  assert (H : out = (out.1, Raise OperationalError)) by reflexivity.
  destruct (durability_failure_propagates Config.CONFIDENCE_THRESHOLD
              Config.ATTENDANCE_COOLDOWN_MINUTES 100 s "bob"%string (9 # 10)
              out.1 OperationalError H) as (_ & Hlast & _ & _ & Hdb).
  split; [reflexivity|]. split; [exact Hlast|].
  destruct (Hdb eq_refl) as (_ & Hrows & _). exact Hrows.
Defined.

(** C7, as stated, fails: with an unwritable database the call for "bob"
    raises [OperationalError] and the cooldown map still has no entry for
    "bob". *)
Lemma guard_not_updated_on_failure :
  let s := fresh_system (unwritable_database (clock_of [36000900000%Z; 36000900150%Z])) in
  let out := process_face Config.CONFIDENCE_THRESHOLD
               Config.ATTENDANCE_COOLDOWN_MINUTES 100 s "bob" (9 # 10) in
  out.2 = Raise OperationalError /\
  last_attendance out.1 !! "bob"%string = None /\
  ~ guard_updated_on_failure Config.CONFIDENCE_THRESHOLD
      Config.ATTENDANCE_COOLDOWN_MINUTES 100 s "bob" (9 # 10).
Proof.
  intros s out.
  split; [reflexivity|]. split; [reflexivity|].
  intros H. specialize (H out.1 OperationalError eq_refl).
  vm_compute in H. discriminate H.
Qed.

(** * Further properties of the modelled code *)

(** ** The store across restarts, registrations and removals *)

Section StoreLifecycle.

Context {Encoding : Type}.
Variable dist : Encoding -> Encoding -> Q.
Implicit Types (m : FaceRecognitionModel Encoding) (d : Disk Encoding).

Lemma model_eta m :
  {| known_encodings := known_encodings m; known_names := known_names m |} = m.
Proof. destruct m. reflexivity. Qed.

(** X1. A restart after a registration or a removal whose save completed
    finds exactly the store the operation left in memory; an operation that
    returns [False] leaves the files untouched. *)
Theorem restart_restores_store (name : string) images m d :
  (forall ok m' d',
      add_person SaveCompleted name images m d = (ok, m', d') ->
      (ok = true -> init_model d' = m') /\ (ok = false -> d' = d /\ m' = m)) /\
  (forall ok n m' d',
      remove_person SaveCompleted name m d = Ok (ok, n, m', d') ->
      (ok = true -> init_model d' = m') /\ (ok = false -> d' = d /\ m' = m)).
Proof.
  split.
  - intros ok m' d'. unfold add_person.
    destruct (person_encodings images); intros [= <- <- <-].
    + split; [discriminate | auto].
    + split; [intros _; first [reflexivity | apply model_eta] | discriminate].
  - intros ok n m' d'. unfold remove_person.
    destruct (indices_to_remove (known_names m) name) as [|i idxs].
    + intros [= <- <- <- <-]. split; [discriminate | auto].
    + destruct (remove_at _ m) as [m1|e]; simpl; [|discriminate].
      intros [= <- <- <- <-].
      split; [intros _; first [reflexivity | apply model_eta] | discriminate].
Qed.

Lemma recognize_faces_empty_store m tolerance (faces : list Encoding) :
  known_encodings m = [] ->
  recognize_faces dist m tolerance faces =
    Ok (replicate (length faces) (Unknown, 0)).
Proof.
  intros Hm. induction faces as [|e faces IH]; [reflexivity|].
  simpl. rewrite (recognize_face_empty dist m tolerance e Hm). simpl.
  rewrite IH. reflexivity.
Qed.

(** X2. When one of the two files is missing, or both exist and one cannot
    be unpickled, the model starts with empty lists, and every face of every
    frame is then [Unknown] with confidence 0. *)
Theorem unreadable_files_start_empty d tolerance (faces : list Encoding) :
  (forall encs, encodings_file d <> Pickled encs) \/
  (forall names, names_file d <> Pickled names) ->
  init_model d = {| known_encodings := []; known_names := [] |} /\
  recognize_faces dist (init_model d) tolerance faces =
    Ok (replicate (length faces) (Unknown, 0)).
Proof.
  intros H.
  assert (Hinit : init_model d = {| known_encodings := []; known_names := [] |}).
  { unfold init_model, load_encodings.
    destruct (encodings_file d) as [| |encs], (names_file d) as [| |names];
      try reflexivity.
    destruct H as [H|H]; [exfalso; exact (H encs eq_refl) | exfalso; exact (H names eq_refl)]. }
  split; [exact Hinit|].
  apply recognize_faces_empty_store. rewrite Hinit. reflexivity.
Qed.

(** Whatever is returned with a name other than the sentinel result comes
    from an index holding that name and an encoding within the tolerance. *)
Lemma recognize_face_sound m tolerance e (n : string) (c : Q) :
  recognize_face dist m tolerance e = Ok (n, c) ->
  (n = Unknown /\ c = 0) \/
  (exists (i : nat) (k : Encoding),
      known_names m !! i = Some n /\ known_encodings m !! i = Some k /\
      dist k e <= tolerance /\ c = 1 - dist k e).
Proof.
  intros Hr.
  assert (Hcases : known_encodings m = [] \/ known_encodings m <> [])
    by (destruct (known_encodings m); [left | right]; done).
  destruct Hcases as [Hnil|Hne].
  - rewrite (recognize_face_empty dist m tolerance e Hnil) in Hr.
    injection Hr as <- <-. left. auto.
  - destruct (recognize_face_best dist m tolerance e Hne) as (d0 & Hd0 & _ & _ & Heq).
    rewrite Heq in Hr.
    destruct (Qle_bool d0 tolerance) eqn:E.
    + destruct (known_names m !! _) as [n'|] eqn:Hn; [|discriminate].
      injection Hr as <- <-. right.
      rewrite face_distance_lookup in Hd0.
      destruct (known_encodings m !! _) as [k|] eqn:Hk; [|discriminate].
      injection Hd0 as <-.
      eexists _, k. split; [exact Hn|]. split; [exact Hk|].
      split; [apply Qle_bool_true; exact E | reflexivity].
    + injection Hr as <- <-. left. auto.
Qed.

(** X3. The match never invents an identity: a result is either the
    sentinel [(Unknown, 0)] or the name stored at an index whose encoding is
    within the tolerance of the input, with confidence 1 minus that
    distance. *)
Theorem match_is_sound m tolerance e (n : string) (c : Q) :
  recognize_face dist m tolerance e = Ok (n, c) ->
  (n = Unknown /\ c = 0) \/
  (exists (i : nat) (k : Encoding),
      known_names m !! i = Some n /\ known_encodings m !! i = Some k /\
      dist k e <= tolerance /\ c = 1 - dist k e).
Proof. apply recognize_face_sound. Qed.

(** X4. On parallel lists a frame never raises and yields one result per
    face, in order, each the result of matching that face alone; if some
    face raises, the whole frame raises and the results of the faces before
    it are lost. *)
Theorem recognize_faces_pointwise m tolerance :
  (parallel m ->
   forall faces : list Encoding,
   exists rs, recognize_faces dist m tolerance faces = Ok rs /\
              Forall2 (fun e r => recognize_face dist m tolerance e = Ok r) faces rs) /\
  (forall (before after : list Encoding) (e : Encoding) (x : exn),
      Forall (fun e' => exists r, recognize_face dist m tolerance e' = Ok r) before ->
      recognize_face dist m tolerance e = Raise x ->
      recognize_faces dist m tolerance (before ++ e :: after) = Raise x).
Proof.
  split.
  - intros Hpar faces. induction faces as [|e faces (rs & Hrs & Hall)].
    + exists []. split; [reflexivity | constructor].
    + destruct (recognize_face_total dist m tolerance e Hpar) as [_ [r Hr]].
      exists (r :: rs). simpl. rewrite Hr. simpl. rewrite Hrs. simpl.
      split; [reflexivity | constructor; assumption].
  - intros before after e x Hbefore Hraise.
    induction Hbefore as [|e' before [r Hr] _ IH]; simpl.
    + rewrite Hraise. reflexivity.
    + rewrite Hr. simpl. rewrite IH. reflexivity.
Qed.

Lemma model_of_entries m m' :
  parallel m -> parallel m' -> entries m = entries m' -> m = m'.
Proof.
  intros Hp Hp' He. destruct m as [es ns], m' as [es' ns'].
  unfold parallel, entries in *. simpl in *.
  assert (ns = ns').
  { rewrite <- (fst_zip ns es), <- (fst_zip ns' es') by lia. rewrite He. reflexivity. }
  assert (es = es').
  { rewrite <- (snd_zip ns es), <- (snd_zip ns' es') by lia. rewrite He. reflexivity. }
  congruence.
Qed.

Lemma names_after_filter (name : string) m m' :
  parallel m -> parallel m' ->
  entries m' = filter (fun p => p.1 <> name) (entries m) ->
  forall x : string, x ∈ known_names m' <-> x <> name /\ x ∈ known_names m.
Proof.
  intros Hp Hp' Hent x.
  rewrite (names_of_entries m' Hp'), (names_of_entries m Hp), Hent.
  rewrite !list_elem_of_fmap. split.
  - intros ([y e] & -> & Hy). apply list_elem_of_filter in Hy as [Hk Hy].
    split; [exact Hk|]. exists (y, e). split; [reflexivity | exact Hy].
  - intros [Hx ([y e] & -> & Hy)]. exists (y, e). split; [reflexivity|].
    apply list_elem_of_filter. split; [exact Hx | exact Hy].
Qed.

Lemma filter_none {A} (P : A -> Prop) `{!forall x, Decision (P x)} (l : list A) :
  (forall x, x ∈ l -> ~ P x) -> filter P l = [].
Proof.
  induction l as [|x l IH]; intros Hall; [reflexivity|].
  rewrite filter_cons_False by (apply Hall; left).
  apply IH. intros y Hy. apply Hall. right. exact Hy.
Qed.

Lemma length_person_encodings (images : list (option (list Encoding))) :
  length (person_encodings images) =
  length (filter (fun img => has_face img = true) images).
Proof.
  unfold person_encodings.
  induction images as [|img images IH]; [reflexivity|].
  rewrite filter_cons. simpl. rewrite length_app, IH.
  destruct img as [[|e l]|]; reflexivity.
Qed.

Lemma person_encodings_nil (images : list (option (list Encoding))) :
  person_encodings images = [] <-> Forall (fun img => has_face img = false) images.
Proof.
  unfold person_encodings.
  induction images as [|img images IH].
  - split; [constructor | reflexivity].
  - simpl. rewrite Forall_cons. rewrite <- IH.
    destruct img as [[|e l]|]; simpl; split;
      try (intros H; split; [reflexivity | exact H]);
      try (intros [_ H]; exact H);
      try discriminate; intros [H _]; discriminate.
Qed.

(** X5. [add_person] returns [False] exactly when no image yields a face,
    and then changes nothing.  Otherwise it appends one entry under the
    given name for every image that yields one (the first face of each),
    after the existing entries, which stay as they are: the name becomes
    known and no other name appears or disappears. *)
Theorem add_person_spec io (name : string) images m d :
  let r := add_person io name images m d in
  let added := length (filter (fun img => has_face img = true) images) in
  (r.1.1 = false <-> Forall (fun img => has_face img = false) images) /\
  (r.1.1 = false -> r.1.2 = m /\ r.2 = d) /\
  known_names r.1.2 = known_names m ++ replicate added name /\
  length (known_encodings r.1.2) = (length (known_encodings m) + added)%nat /\
  take (length (known_encodings m)) (known_encodings r.1.2) = known_encodings m /\
  (r.1.1 = true -> name ∈ get_known_names r.1.2) /\
  (forall other : string, other <> name ->
      (other ∈ get_known_names r.1.2 <-> other ∈ get_known_names m)).
Proof.
  intros r added. subst r added.
  rewrite <- length_person_encodings, <- person_encodings_nil.
  unfold add_person.
  destruct (person_encodings images) as [|e pe] eqn:E; simpl.
  - rewrite !app_nil_r, Nat.add_0_r, firstn_all.
    repeat split; auto; discriminate.
  - split; [split; discriminate|]. split; [discriminate|].
    split; [reflexivity|].
    split; [rewrite length_app; reflexivity|].
    split; [rewrite take_app_length; reflexivity|].
    split.
    + intros _. rewrite elem_of_get_known_names. simpl.
      rewrite elem_of_app. right. left.
    + intros other Hother. rewrite !elem_of_get_known_names. simpl.
      rewrite elem_of_app, elem_of_cons. split; [|tauto].
      intros [H|[H|H]]; [exact H | congruence |].
      apply elem_of_replicate_inv in H. congruence.
Qed.

(** X6. On a store with parallel lists, registering a name the store does
    not hold and then removing it gives back the store as it was; the
    removal reports as many removed encodings as the registration added,
    and the same boolean. *)
Theorem add_then_remove_restores io io' (name : string) images m d :
  parallel m ->
  name ∉ known_names m ->
  let r := add_person io name images m d in
  exists d',
    remove_person io' name r.1.2 r.2 =
      Ok (r.1.1, length (filter (fun img => has_face img = true) images), m, d').
Proof.
  intros Hpar Hfresh r.
  pose proof (add_person_parallel io name images m d Hpar) as Hpar1.
  pose proof (add_person_entries io name images m d Hpar) as Hent1.
  fold r in Hpar1, Hent1.
  destruct (remove_person_entries io' name r.1.2 r.2 Hpar1)
    as (ok & n & m' & d' & Heq & Hent & Hpar' & Hn & Hnone & Hsome).
  assert (Hm : m' = m).
  { apply model_of_entries; [exact Hpar' | exact Hpar |].
    rewrite Hent, Hent1, filter_app.
    rewrite (filter_id _ (entries m)).
    - rewrite (filter_none _ (_ <$> _)); [apply app_nil_r|].
      intros p Hp Hk. apply list_elem_of_fmap in Hp as (e & -> & _).
      apply Hk. reflexivity.
    - intros [x e] Hin Hx. simpl in Hx. subst x. apply Hfresh.
      eapply elem_of_zip_l. exact Hin. }
  subst m'. exists d'. rewrite Heq.
  assert (Hnames : known_names r.1.2 =
            known_names m ++ replicate (length (person_encodings images)) name).
  { subst r. unfold add_person.
    destruct (person_encodings images); simpl; [rewrite app_nil_r|]; reflexivity. }
  assert (Hok : ok = r.1.1).
  { subst r. unfold add_person in *.
    destruct (person_encodings images) as [|e pe]; simpl in *.
    - apply Hnone. exact Hfresh.
    - apply Hsome. rewrite elem_of_app. right. left. }
  assert (Hcount : n = length (filter (fun img => has_face img = true) images)).
  { rewrite Hn, Hnames, filter_app, length_app, <- length_person_encodings.
    rewrite (filter_none _ (known_names m)).
    - simpl. rewrite filter_id; [apply length_replicate|].
      intros x Hx. apply elem_of_replicate_inv in Hx. exact Hx.
    - intros x Hx Hk. subst x. exact (Hfresh Hx). }
  rewrite Hok, Hcount. reflexivity.
Qed.

(** The names left by the loop of [remove_person] do not depend on the
    encodings list: whenever the loop returns, it leaves the names that the
    same loop leaves on a store whose two lists are both the names list. *)
Lemma remove_at_names (idxs : list nat) :
  forall (es : list Encoding) (ns : list string) m',
    remove_at idxs {| known_encodings := es; known_names := ns |} = Ok m' ->
    exists m2 : FaceRecognitionModel string,
      remove_at idxs {| known_encodings := ns; known_names := ns |} = Ok m2 /\
      known_names m2 = known_names m'.
Proof.
  induction idxs as [|i idxs IH]; intros es ns m'; simpl.
  - intros [= <-]. eexists. split; reflexivity.
  - destruct (del es i) as [es1|] eqn:Ees; [|discriminate].
    destruct (del ns i) as [ns1|] eqn:Ens; [|discriminate].
    simpl. intros Hrest. apply (IH es1 ns1 m' Hrest).
Qed.

(** Whatever the lengths of the two lists, a removal that returns leaves a
    names list without the removed name. *)
Lemma removed_name_gone io (name : string) m d ok n m' d' :
  remove_person io name m d = Ok (ok, n, m', d') ->
  name ∉ known_names m'.
Proof.
  unfold remove_person.
  pose proof (indices_to_remove_nil_iff (known_names m) name) as Hnil.
  destruct (indices_to_remove (known_names m) name) as [|i idxs] eqn:Ei.
  - intros [= <- <- <- <-]. apply Hnil. reflexivity.
  - rewrite <- Ei. destruct m as [es ns]. simpl in *.
    destruct (remove_at _ _) as [m1|x] eqn:Hrem; simpl; [|discriminate].
    intros [= <- <- <- <-].
    destruct (remove_at_names _ es ns m1 Hrem) as (m2 & Hrem2 & <-).
    rewrite (remove_at_spec name ns ns eq_refl) in Hrem2.
    injection Hrem2 as <-. simpl.
    intros Hin. apply list_elem_of_fmap in Hin as ([x y] & Hx & Hin).
    apply list_elem_of_filter in Hin as [Hne _]. simpl in *. congruence.
Qed.

(** X7. Removing a person a second time is the "nothing to remove"
    outcome, whatever the lengths of the two lists: once a removal has
    returned, the name is not in the names list any more, and another
    removal returns [False], count 0, with store and files untouched. *)
Theorem remove_twice io io' (name : string) m d ok n m' d' :
  remove_person io name m d = Ok (ok, n, m', d') ->
  (name ∉ get_known_names m') /\
  remove_person io' name m' d' = Ok (false, O, m', d').
Proof.
  intros H1.
  pose proof (removed_name_gone io name m d ok n m' d' H1) as Hgone.
  split; [rewrite elem_of_get_known_names; exact Hgone|].
  unfold remove_person.
  apply (indices_to_remove_nil_iff (known_names m') name) in Hgone.
  rewrite Hgone. reflexivity.
Qed.

(** X8. After a person is removed, no input is matched to that name any
    more (the sentinel name itself apart), at any tolerance. *)
Theorem removed_person_not_matched io (name : string) m d ok n m' d'
    tolerance e (n' : string) (c : Q) :
  parallel m ->
  name <> Unknown ->
  remove_person io name m d = Ok (ok, n, m', d') ->
  recognize_face dist m' tolerance e = Ok (n', c) ->
  n' <> name.
Proof.
  intros Hpar Hname H1 Hr.
  destruct (remove_person_entries io name m d Hpar)
    as (ok1 & n1 & m1 & d1 & Heq & Hent & Hpar' & _).
  rewrite H1 in Heq. injection Heq as <- <- <- <-.
  destruct (recognize_face_sound m' tolerance e n' c Hr)
    as [[-> _] | (i & k & Hn & _)].
  - congruence.
  - intros ->. apply list_elem_of_lookup_2 in Hn.
    apply (names_after_filter name m m' Hpar Hpar' Hent) in Hn. tauto.
Qed.

(** X9. On a store with parallel lists, registering again a person who is
    already in the store, the way [register_user.py] does it (remove, then
    add): the entries of the other identities are untouched, and the
    entries of that person are exactly the new encodings; when no new image
    yields a face the person is left with no entry at all. *)
Theorem reregister_replaces io io' (name : string) images m d ok n m1 d1 :
  parallel m ->
  remove_person io name m d = Ok (ok, n, m1, d1) ->
  let r := add_person io' name images m1 d1 in
  entries r.1.2 =
    filter (fun p => p.1 <> name) (entries m) ++
    ((fun e => (name, e)) <$> person_encodings images) /\
  filter (fun p => p.1 = name) (entries r.1.2) =
    (fun e => (name, e)) <$> person_encodings images /\
  (r.1.1 = false -> name ∉ get_known_names r.1.2).
Proof.
  intros Hpar H1 r.
  destruct (remove_person_entries io name m d Hpar)
    as (ok1 & n1 & m1' & d1' & Heq & Hent & Hpar1 & _).
  rewrite H1 in Heq. injection Heq as <- <- <- <-.
  pose proof (add_person_entries io' name images m1 d1 Hpar1) as Hent2.
  fold r in Hent2. rewrite Hent in Hent2.
  split; [exact Hent2|]. split.
  - rewrite Hent2, filter_app.
    rewrite (filter_none _ (filter _ (entries m))).
    + simpl. apply filter_id. intros p Hp.
      apply list_elem_of_fmap in Hp as (e & -> & _). reflexivity.
    + intros p Hp Hk. apply list_elem_of_filter in Hp as [Hp _]. exact (Hp Hk).
  - intros Hfalse. rewrite elem_of_get_known_names.
    assert (Hm : r.1.2 = m1).
    { subst r. unfold add_person in *.
      destruct (person_encodings images); [reflexivity | discriminate]. }
    rewrite Hm, (names_after_filter name m m1 Hpar Hpar1 Hent). tauto.
Qed.

(** X10. [get_known_names] lists every name of the store exactly once:
    it has no duplicates, holds the same names as [known_names], and is
    never longer. *)
Theorem known_names_distinct m :
  NoDup (get_known_names m) /\
  (forall x : string, x ∈ get_known_names m <-> x ∈ known_names m) /\
  (length (get_known_names m) <= length (known_names m))%nat.
Proof.
  split; [apply NoDup_elements|]. split; [apply elem_of_get_known_names|].
  apply submseteq_length, NoDup_submseteq; [apply NoDup_elements|].
  intros x. apply elem_of_get_known_names.
Qed.

End StoreLifecycle.

(** ** The attendance table, the CSV log and the directory *)

Lemma filter_shorter_iff {A} (P : A -> Prop) `{!forall x, Decision (P x)} (l : list A) :
  (length (filter P l) < length l)%nat <-> exists x, x ∈ l /\ ~ P x.
Proof.
  induction l as [|x l IH].
  - split; [simpl; lia | intros (x & Hx & _); inversion Hx].
  - rewrite filter_cons. pose proof (length_filter P l) as Hle.
    destruct (decide (P x)) as [Hp|Hp]; simpl.
    + rewrite <- Nat.succ_lt_mono, IH. split.
      * intros (y & Hy & Hny). exists y. split; [right; exact Hy | exact Hny].
      * intros (y & Hy & Hny). apply elem_of_cons in Hy as [->|Hy]; [contradiction|].
        exists y. auto.
    + split; [|lia]. intros _. exists x. split; [left | exact Hp].
Qed.

Lemma get_user_by_name_None (db : AttendanceDatabase) (name : string) :
  get_user_by_name db name = None <-> name ∉ user_name <$> users db.
Proof.
  unfold get_user_by_name. rewrite list_elem_of_fmap. split.
  - intros H (u & -> & Hu).
    destruct (filter _ (users db)) as [|v vs] eqn:E; [|discriminate].
    assert (Hin : u ∈ filter (fun v => user_name v = user_name u) (users db))
      by (apply list_elem_of_filter; auto).
    rewrite E in Hin. inversion Hin.
  - intros H. destruct (filter _ (users db)) as [|v vs] eqn:E; [reflexivity|].
    exfalso. apply H. exists v.
    assert (Hv : v ∈ filter (fun u => user_name u = name) (users db))
      by (rewrite E; left).
    apply list_elem_of_filter in Hv as [Hv1 Hv2]. auto.
Qed.

(** What [delete_user] does on a writable database. *)
Lemma delete_user_effects (name : string) (db : AttendanceDatabase) :
  db_writable db = true ->
  let r := delete_user name db in
  r.2 = Ok (bool_decide (name ∈ user_name <$> users db)) /\
  attendance r.1 = filter (fun row => att_name row <> name) (attendance db) /\
  csv_log r.1 = csv_log db /\
  get_user_by_name r.1 name = None /\
  (forall other : string, other <> name ->
      get_user_by_name r.1 other = get_user_by_name db other).
Proof.
  intros Hw r. subst r. unfold delete_user. rewrite Hw. simpl.
  split; [|split; [reflexivity | split; [reflexivity | split]]].
  - f_equal.
    destruct (bool_decide (name ∈ user_name <$> users db)) eqn:E.
    + apply bool_decide_eq_true in E. apply Nat.ltb_lt.
      apply list_elem_of_fmap in E as (u & -> & Hu).
      pose proof (length_filter_lt (fun v => user_name v <> user_name u)
                    (users db) u Hu (fun H => H eq_refl)). lia.
    + apply bool_decide_eq_false in E. apply Nat.ltb_ge.
      rewrite filter_id; [lia|].
      intros u Hu Heq. apply E. apply list_elem_of_fmap. exists u. auto.
  - apply get_user_by_name_None. simpl.
    rewrite list_elem_of_fmap. intros (u & -> & Hu).
    apply list_elem_of_filter in Hu as [Hu _]. congruence.
  - intros other Hother. unfold get_user_by_name. simpl.
    f_equal. rewrite list_filter_filter. apply list_filter_iff.
    intros u. split; [tauto|]. intros Hu. split; [exact Hu | congruence].
Qed.

(** X11. On a writable database [delete_user] deletes every attendance row
    and the directory row of that name and nothing else: the other rows
    keep their order, the CSV log is not touched, the name is no longer
    found, every other name is found as before; the returned boolean tells
    whether a directory row was deleted, whatever happened to the
    attendance rows. *)
Theorem delete_user_spec (name : string) (db : AttendanceDatabase) :
  db_writable db = true ->
  let r := delete_user name db in
  r.2 = Ok (bool_decide (name ∈ user_name <$> users db)) /\
  attendance r.1 = filter (fun row => att_name row <> name) (attendance db) /\
  csv_log r.1 = csv_log db /\
  get_user_by_name r.1 name = None /\
  (forall other : string, other <> name ->
      get_user_by_name r.1 other = get_user_by_name db other).
Proof. apply delete_user_effects. Qed.

(** A call that finds no recent row, on a writable database and CSV log:
    it succeeds and appends one row and one CSV line. *)
Lemma mark_attendance_fresh (name : string) (confidence : option Q)
    (d : AttendanceDatabase) :
  let now := now_at (clock d) (reads (clock d)) in
  let now' := now_at (clock d) (S (reads (clock d))) in
  recent_rows d name (strftime_datetime (now' - timedelta_minutes 5)) = [] ->
  db_writable d = true ->
  mark_attendance name confidence d =
    (if csv_writable d then
       ({| users := users d;
           attendance := attendance d ++
             [{| att_user_id := user_id <$> get_user_by_name d name;
                 att_name := name; att_timestamp := strftime_datetime now;
                 att_date := strftime_date now; att_confidence := confidence |}];
           csv_log := csv_log d ++
             [{| csv_name := name; csv_timestamp := strftime_datetime now;
                 csv_confidence := csv_confidence_of confidence |}];
           db_writable := true; csv_writable := true;
           clock := {| now_at := now_at (clock d); reads := S (S (reads (clock d))) |} |},
        Ok (true, marked_successfully))
     else
       ({| users := users d;
           attendance := attendance d ++
             [{| att_user_id := user_id <$> get_user_by_name d name;
                 att_name := name; att_timestamp := strftime_datetime now;
                 att_date := strftime_date now; att_confidence := confidence |}];
           csv_log := csv_log d;
           db_writable := true; csv_writable := false;
           clock := {| now_at := now_at (clock d); reads := S (S (reads (clock d))) |} |},
        Raise OSError)).
Proof.
  intros now now' Hrecent Hw.
  unfold mark_attendance, is_recent_attendance, log_to_csv, recent_rows in *.
  simpl. fold now now'. rewrite Hrecent. simpl. rewrite Hw.
  destruct (csv_writable d) eqn:Hc; simpl;
    unfold with_csv_log, with_attendance, with_clock, get_user_by_name; simpl;
    rewrite ?Hw, ?Hc; reflexivity.
Qed.

(** An instant of a four-digit year is a [datetime]. *)
Lemma four_digit_year_representable (t : Z) :
  four_digit_year t -> representable t.
Proof.
  unfold four_digit_year, representable, timedelta_days, date_1000, date_min.
  lia.
Qed.

Lemma no_rows_not_recent (name : string) (d : AttendanceDatabase) (cutoff : Z) :
  name ∉ att_name <$> attendance d -> recent_rows d name cutoff = [].
Proof.
  intros H. unfold recent_rows. apply filter_none.
  intros row Hrow [Hn _]. apply H. apply list_elem_of_fmap. exists row. auto.
Qed.

(** X12. A first sighting is recorded: when the query finds no row of the
    person after the cutoff (in particular when the person has no row at
    all) and both the database and the CSV log are writable,
    [mark_attendance] reports success and appends exactly one row and one
    CSV line, stamped with the first clock reading cut to the second; the
    row carries the directory id of the name, or none when the name is not
    in the directory. *)
Theorem first_attendance_is_recorded (name : string) (confidence : option Q)
    (d : AttendanceDatabase) :
  let now := now_at (clock d) (reads (clock d)) in
  let now' := now_at (clock d) (S (reads (clock d))) in
  recent_rows d name (strftime_datetime (now' - timedelta_minutes 5)) = [] ->
  db_writable d = true -> csv_writable d = true ->
  let r := mark_attendance name confidence d in
  r.2 = Ok (true, marked_successfully) /\
  attendance r.1 = attendance d ++
    [{| att_user_id := user_id <$> get_user_by_name d name;
        att_name := name; att_timestamp := strftime_datetime now;
        att_date := strftime_date now; att_confidence := confidence |}] /\
  csv_log r.1 = csv_log d ++
    [{| csv_name := name; csv_timestamp := strftime_datetime now;
        csv_confidence := csv_confidence_of confidence |}] /\
  users r.1 = users d /\
  (forall cutoff : Z,
      name ∉ att_name <$> attendance d -> recent_rows d name cutoff = []).
Proof.
  intros now now' Hrecent Hw Hc r. subst r.
  rewrite (mark_attendance_fresh name confidence d Hrecent Hw), Hc. simpl.
  repeat split; try reflexivity.
  intros cutoff. apply no_rows_not_recent.
Qed.


(** X13. After [delete_user], the next sighting of that person is never
    suppressed as a duplicate: on a writable database and CSV log it is
    recorded, it is then the only row of that person, and it carries no
    user id, since the directory row is gone. *)
Theorem delete_then_mark (name : string) (confidence : option Q)
    (d : AttendanceDatabase) :
  db_writable d = true -> csv_writable d = true ->
  let d1 := (delete_user name d).1 in
  let r := mark_attendance name confidence d1 in
  r.2 = Ok (true, marked_successfully) /\
  exists row,
    filter (fun x => att_name x = name) (attendance r.1) = [row] /\
    att_user_id row = None /\ att_confidence row = confidence.
Proof.
  intros Hw Hc d1 r.
  assert (Hd1 : d1 = {| users := filter (fun u => user_name u <> name) (users d);
                        attendance := filter (fun x => att_name x <> name) (attendance d);
                        csv_log := csv_log d; db_writable := db_writable d;
                        csv_writable := csv_writable d; clock := clock d |}).
  { subst d1. unfold delete_user. rewrite Hw. reflexivity. }
  assert (Hnone : name ∉ att_name <$> attendance d1).
  { rewrite Hd1. simpl. rewrite list_elem_of_fmap. intros (x & -> & Hx).
    apply list_elem_of_filter in Hx as [Hx _]. congruence. }
  assert (Hw1 : db_writable d1 = true) by (rewrite Hd1; exact Hw).
  assert (Hc1 : csv_writable d1 = true) by (rewrite Hd1; exact Hc).
  subst r.
  rewrite (mark_attendance_fresh name confidence d1
             (no_rows_not_recent name d1 _ Hnone) Hw1), Hc1. simpl.
  split; [reflexivity|].
  eexists. rewrite filter_app, (filter_none _ (attendance d1)).
  - simpl. rewrite filter_cons_True by reflexivity. rewrite filter_nil.
    split; [reflexivity|]. simpl. split; [|reflexivity].
    replace (get_user_by_name d1 name) with (@None User); [reflexivity|].
    symmetry. apply get_user_by_name_None. rewrite Hd1. simpl.
    rewrite list_elem_of_fmap. intros (u & -> & Hu).
    apply list_elem_of_filter in Hu as [Hu _]. congruence.
  - intros x Hx Hn. apply Hnone. apply list_elem_of_fmap. exists x. auto.
Qed.

(** X14. While the CSV log is writable, [mark_attendance] keeps the table
    and the log in step, whatever its outcome (recorded, suppressed, or the
    database unwritable); and it never drops or reorders rows that were
    there. *)
Theorem table_and_log_stay_in_step (name : string) (confidence : option Q)
    (d : AttendanceDatabase) :
  csv_writable d = true ->
  let r := mark_attendance name confidence d in
  (mirrored d -> mirrored r.1) /\
  attendance d `prefix_of` attendance r.1 /\
  csv_log d `prefix_of` csv_log r.1.
Proof.
  intros Hc r. subst r.
  unfold mark_attendance, is_recent_attendance, log_to_csv, mirrored. simpl.
  destruct (0 <? _)%nat; simpl.
  - split; [auto|]. split; reflexivity.
  - destruct (db_writable d); simpl; rewrite ?Hc; simpl.
    + split.
      * intros H. rewrite !map_app, H. reflexivity.
      * split; apply prefix_app_r; reflexivity.
    + split; [auto|]. split; reflexivity.
Qed.

(** X15. When the row is inserted but the CSV line cannot be written, the
    call raises after the commit: the row stays in the table without a
    line in the log, and a retry within the window is then suppressed as a
    duplicate, so the line is never written. *)
Theorem csv_failure_leaves_row (name : string) (confidence : option Q)
    (d : AttendanceDatabase) :
  let now := now_at (clock d) (reads (clock d)) in
  let now' := now_at (clock d) (S (reads (clock d))) in
  let retry_check := now_at (clock d) (S (S (S (reads (clock d))))) in
  recent_rows d name (strftime_datetime (now' - timedelta_minutes 5)) = [] ->
  db_writable d = true -> csv_writable d = false ->
  let r := mark_attendance name confidence d in
  r.2 = Raise OSError /\
  (exists row, attendance r.1 = attendance d ++ [row] /\ att_name row = name /\
               att_timestamp row = strftime_datetime now) /\
  csv_log r.1 = csv_log d /\
  (forall confidence',
      (strftime_datetime retry_check - strftime_datetime now < 300)%Z ->
      let r' := mark_attendance name confidence' r.1 in
      r'.2 = Ok (false, already_marked) /\
      attendance r'.1 = attendance r.1 /\ csv_log r'.1 = csv_log d).
Proof.
  intros now now' retry_check Hrecent Hw Hc r. subst r.
  rewrite (mark_attendance_fresh name confidence d Hrecent Hw), Hc. simpl.
  split; [reflexivity|]. split; [eexists; split; [reflexivity | split; reflexivity]|].
  split; [reflexivity|].
  intros confidence' Hlt.
  match goal with
  | |- context [mark_attendance name confidence' ?db1] =>
      destruct (durable_duplicate_suppressed_on_whole_seconds name confidence' db1
                  {| att_user_id := user_id <$> get_user_by_name d name;
                     att_name := name; att_timestamp := strftime_datetime now;
                     att_date := strftime_date now; att_confidence := confidence |})
        as (d' & Heq & Hatt & Hcsv)
  end.
  - simpl. rewrite elem_of_app. right. left.
  - reflexivity.
  - simpl. exact Hlt.
  - rewrite Heq. simpl. split; [reflexivity|]. split; [exact Hatt | exact Hcsv].
Qed.

(** X16. For a window whose cutoff [datetime.now() - timedelta(minutes)]
    lies in the years 1000 to 9999: the subtraction gives that cutoff
    without raising; the check only reads (it advances the clock and
    changes nothing else); it answers [True] exactly when a row of that
    name has a timestamp after the cutoff, both cut to whole seconds; a
    person without rows is never recent; and widening the window, to one
    whose cutoff lies in those years too, never turns a recent person into
    a non-recent one. *)
Theorem recency_check_properties (name : string) (minutes : Z)
    (d : AttendanceDatabase) :
  let now := now_at (clock d) (reads (clock d)) in
  let cutoff := (now - timedelta_minutes minutes)%Z in
  four_digit_year cutoff ->
  let r := is_recent_attendance name minutes d in
  datetime_sub now (timedelta_minutes minutes) = Fits cutoff /\
  r.2 = with_clock {| now_at := now_at (clock d); reads := S (reads (clock d)) |} d /\
  (r.1 = true <->
     exists row, row ∈ attendance d /\ att_name row = name /\
                 (strftime_datetime cutoff < att_timestamp row)%Z) /\
  (name ∉ att_name <$> attendance d -> r.1 = false) /\
  (forall minutes' : Z,
      (minutes <= minutes')%Z ->
      four_digit_year (now - timedelta_minutes minutes') ->
      r.1 = true ->
      (is_recent_attendance name minutes' d).1 = true).
Proof.
  intros now cutoff Hcut r. subst r. unfold is_recent_attendance. simpl.
  fold now. fold cutoff.
  assert (Hpos : forall c : Z,
             (0 <? length (recent_rows d name c))%nat = true <->
             exists row, row ∈ attendance d /\ att_name row = name /\
                         (c < att_timestamp row)%Z).
  { intros c. rewrite Nat.ltb_lt. unfold recent_rows. split.
    - intros H. destruct (filter _ (attendance d)) as [|row rows] eqn:E;
        [simpl in H; lia|].
      assert (Hin : row ∈ filter
                (fun r => att_name r = name /\ (c < att_timestamp r)%Z)
                (attendance d)) by (rewrite E; left).
      apply list_elem_of_filter in Hin as [[Hn Hts] Hin]. eauto.
    - intros (row & Hin & Hn & Hts).
      assert (Hin' : row ∈ filter
                (fun r => att_name r = name /\ (c < att_timestamp r)%Z)
                (attendance d)) by (apply list_elem_of_filter; auto).
      destruct (filter _ (attendance d)); [inversion Hin' | simpl; lia]. }
  split.
  { unfold datetime_sub. fold cutoff. apply decide_True.
    apply four_digit_year_representable. exact Hcut. }
  split; [reflexivity|]. split; [apply Hpos|]. split.
  - intros H. rewrite (no_rows_not_recent name d _ H). reflexivity.
  - intros minutes' Hle _ H.
    apply Hpos in H as (row & Hin & Hn & Hts). apply Hpos.
    exists row. split; [exact Hin|]. split; [exact Hn|].
    eapply Z.le_lt_trans; [|exact Hts].
    unfold cutoff, strftime_datetime, timedelta_minutes.
    apply Z.div_le_mono; lia.
Qed.

(** ** More about the attendance loop *)

(** The outcomes of [mark_attendance], with what each does to the table. *)
Lemma mark_attendance_outcomes (name : string) (confidence : option Q)
    (d d' : AttendanceDatabase) (res : result (bool * string)) :
  mark_attendance name confidence d = (d', res) ->
  (attendance d' = attendance d /\
   (res = Ok (false, already_marked) \/ res = Raise OperationalError)) \/
  (exists row, attendance d' = attendance d ++ [row] /\ att_name row = name /\
               (res = Ok (true, marked_successfully) \/ res = Raise OSError)).
Proof.
  unfold mark_attendance, is_recent_attendance, log_to_csv. simpl.
  destruct (0 <? _)%nat.
  - intros [= <- <-]. left. auto.
  - destruct (db_writable d); simpl.
    + destruct (csv_writable d); simpl; intros [= <- <-]; right;
        eexists; (split; [reflexivity|]); simpl; auto.
    + intros [= <- <-]. left. auto.
Qed.

Section AttendanceLoop.

Variables (threshold minutes : Q).

(** X17. When the recorder suppresses an attempt as a duplicate (the
    in-memory map has no fresh entry, for instance after a restart, but the
    table holds a recent row), the iteration prints the warning and leaves
    the map, the table and the log as they were; the map still does not
    hold the person, so the next attempt reaches the recorder again. *)
Theorem durable_suppression_keeps_map t s (name : string) c :
  name <> Unknown -> threshold <= c ->
  within_cooldown minutes (last_attendance s) name t = false ->
  recent_rows (db s) name
    (strftime_datetime
       (now_at (clock (db s)) (S (reads (clock (db s)))) - timedelta_minutes 5))
    <> [] ->
  let r := process_face threshold minutes t s name c in
  r.2 = Ok tt /\
  last_attendance r.1 = last_attendance s /\
  attendance (db r.1) = attendance (db s) /\
  csv_log (db r.1) = csv_log (db s) /\
  trace r.1 = trace s ++ [GuardConsulted name; RecorderInvoked name c;
                          PrintedWarning already_marked name] /\
  (forall t', within_cooldown minutes (last_attendance r.1) name t' =
              within_cooldown minutes (last_attendance s) name t').
Proof.
  intros Hn Hc Hw Hrecent r. subst r.
  rewrite (process_face_marks threshold minutes t s name c Hn Hc Hw). cbv zeta.
  rewrite (mark_attendance_suppressed name (Some c) (db s) Hrecent). simpl.
  rewrite <- !app_assoc. simpl. repeat split; reflexivity.
Qed.

(** What one iteration does to the cooldown map. *)
Lemma process_face_map t s (name : string) c s1 r1 :
  process_face threshold minutes t s name c = (s1, r1) ->
  last_attendance s1 = last_attendance s \/
  (last_attendance s1 = <[name := t]> (last_attendance s) /\
   name <> Unknown /\ threshold <= c /\ r1 = Ok tt /\
   exists row, attendance (db s1) = attendance (db s) ++ [row] /\ att_name row = name).
Proof.
  intros H.
  destruct (bool_decide (name = Unknown) || Qlt_bool c threshold) eqn:E.
  { unfold process_face in H. rewrite E in H. injection H as <- <-. left. reflexivity. }
  apply filter_passed_inv in E as [Hn Hc].
  destruct (within_cooldown minutes (last_attendance s) name t) eqn:Hw.
  { rewrite (process_face_cooldown threshold minutes t s name c Hn Hc Hw) in H.
    injection H as <- <-. left. reflexivity. }
  rewrite (process_face_marks threshold minutes t s name c Hn Hc Hw) in H. cbv zeta in H.
  destruct (mark_attendance name (Some c) (db s)) as [db' res] eqn:Em.
  destruct (mark_attendance_outcomes _ _ _ _ _ Em)
    as [[Hatt [-> | ->]] | (row & Hatt & Hrow & [-> | ->])];
    injection H as <- <-; simpl; auto.
  right. repeat split; auto. exists row. auto.
Qed.

(** X18. Processing a frame changes the cooldown map only at persons it
    has just recorded: every entry is either what it was, or the current
    time for a face of the frame that is not [Unknown], has confidence at
    least the floor, and was just recorded; no entry is ever removed. *)
Theorem cooldown_map_changes_only_on_recording t (faces : list (string * Q)) :
  forall s s' r,
    process_faces threshold minutes t s faces = (s', r) ->
    forall n : string,
      last_attendance s' !! n = last_attendance s !! n \/
      (last_attendance s' !! n = Some t /\
       exists c, (n, c) ∈ faces /\ n <> Unknown /\ threshold <= c /\
                 n ∈ att_name <$>
                   drop (length (attendance (db s))) (attendance (db s'))).
Proof.
  induction faces as [|[name c] rest IH]; intros s s' r H n; simpl in H.
  - injection H as <- <-. left. reflexivity.
  - destruct (process_face threshold minutes t s name c) as [s1 r1] eqn:E1.
    destruct (process_face_effects threshold minutes t s name c s1 r1 E1)
      as [(_ & Hs1 & Hr1) | (_ & _ & _ & rows1 & _ & Hatt1 & _)].
    + subst s1 r1. rename H into Hrest.
      destruct (IH s s' r Hrest n) as [Hsame | (Ht & c' & Hin & Hrest')].
      * left. exact Hsame.
      * right. split; [exact Ht|]. exists c'. split; [right; exact Hin | exact Hrest'].
    + assert (Hgrow : exists rows2,
                 attendance (db s') = attendance (db s1) ++ rows2 /\
                 (last_attendance s' !! n = last_attendance s1 !! n \/
                  (last_attendance s' !! n = Some t /\
                   exists c', (n, c') ∈ rest /\ n <> Unknown /\ threshold <= c' /\
                              n ∈ att_name <$> rows2))).
      { destruct r1 as [[]|e].
        - destruct (process_faces_effects threshold minutes t rest s1 s' r H)
            as (_ & rows2 & _ & Hatt2 & _).
          exists rows2. split; [exact Hatt2|].
          destruct (IH s1 s' r H n) as [Hsame | (Ht & c' & Hin & Hn & Hc & Hrow)];
            [left; exact Hsame|].
          right. split; [exact Ht|]. exists c'. repeat split; auto.
          rewrite Hatt2, drop_app_length in Hrow. exact Hrow.
        - injection H as <- <-. exists []. rewrite app_nil_r. auto. }
      destruct Hgrow as (rows2 & Hatt2 & Hn2).
      assert (Hnew : drop (length (attendance (db s))) (attendance (db s')) =
                     rows1 ++ rows2)
        by (rewrite Hatt2, Hatt1, <- app_assoc; apply drop_app_length).
      rewrite Hnew.
      destruct Hn2 as [Hsame | (Ht & c' & Hin & Hn & Hc & Hrow)].
      * rewrite Hsame.
        destruct (process_face_map t s name c s1 r1 E1)
          as [-> | (-> & Hn & Hc & _ & row & Hatt & Hrow)]; [left; reflexivity|].
        destruct (decide (name = n)) as [<-|Hne].
        -- right. rewrite lookup_insert_eq. split; [reflexivity|].
           exists c. split; [left|]. repeat split; auto.
           rewrite fmap_app, elem_of_app. left.
           rewrite Hatt1 in Hatt. apply app_inv_head in Hatt. rewrite Hatt.
           simpl. rewrite Hrow. left.
        -- left. apply lookup_insert_ne. exact Hne.
      * right. split; [exact Ht|]. exists c'. split; [right; exact Hin|].
        repeat split; auto. rewrite fmap_app, elem_of_app. right. exact Hrow.
Qed.

(** What one iteration does to the table, and to an entry of the map that
    already holds the current time. *)
Lemma process_face_rows t s (name : string) c s1 r1 :
  0 < minutes ->
  process_face threshold minutes t s name c = (s1, r1) ->
  exists rows1,
    attendance (db s1) = attendance (db s) ++ rows1 /\
    (rows1 = [] \/
     exists row, rows1 = [row] /\ att_name row = name /\
                 (r1 = Ok tt -> last_attendance s1 !! name = Some t)) /\
    (last_attendance s !! name = Some t -> rows1 = []) /\
    (forall n : string, last_attendance s !! n = Some t ->
                        last_attendance s1 !! n = Some t).
Proof.
  intros Hpos H.
  assert (Hkeep : forall n : string, last_attendance s !! n = Some t ->
                    last_attendance s1 !! n = Some t).
  { intros n Hn.
    destruct (process_face_map t s name c s1 r1 H) as [-> | (-> & _)]; [exact Hn|].
    destruct (decide (name = n)) as [->|Hne];
      [apply lookup_insert_eq | rewrite lookup_insert_ne by exact Hne; exact Hn]. }
  destruct (bool_decide (name = Unknown) || Qlt_bool c threshold) eqn:E.
  { unfold process_face in H. rewrite E in H. injection H as <- <-.
    exists []. rewrite app_nil_r. auto. }
  apply filter_passed_inv in E as [Hn Hc].
  destruct (within_cooldown minutes (last_attendance s) name t) eqn:Hw.
  { rewrite (process_face_cooldown threshold minutes t s name c Hn Hc Hw) in H.
    injection H as <- <-. exists []. simpl. rewrite app_nil_r. auto. }
  assert (Hnot : last_attendance s !! name <> Some t).
  { intros Hlast.
    assert (within_cooldown minutes (last_attendance s) name t = true);
      [|congruence].
    apply (within_cooldown_iff minutes _ _ t t Hlast). lra. }
  rewrite (process_face_marks threshold minutes t s name c Hn Hc Hw) in H. cbv zeta in H.
  destruct (mark_attendance name (Some c) (db s)) as [db' res] eqn:Em.
  destruct (mark_attendance_outcomes _ _ _ _ _ Em)
    as [[Hatt [-> | ->]] | (row & Hatt & Hrow & [-> | ->])];
    injection H as <- <-; simpl in *.
  - exists []. rewrite app_nil_r. split; [exact Hatt|]. split; [left; reflexivity|].
    split; [reflexivity | exact Hkeep].
  - exists []. rewrite app_nil_r. split; [exact Hatt|]. split; [left; reflexivity|].
    split; [reflexivity | exact Hkeep].
  - exists [row]. split; [exact Hatt|]. split.
    + right. exists row. repeat split; auto. intros _. apply lookup_insert_eq.
    + split; [contradiction | exact Hkeep].
  - exists [row]. split; [exact Hatt|]. split.
    + right. exists row. repeat split; auto. discriminate.
    + split; [contradiction | exact Hkeep].
Qed.

Lemma process_faces_once t (faces : list (string * Q)) :
  0 < minutes ->
  forall s s' r,
    process_faces threshold minutes t s faces = (s', r) ->
    exists rows,
      attendance (db s') = attendance (db s) ++ rows /\
      forall name : string,
        (length (filter (fun x => att_name x = name) rows) <= 1)%nat /\
        (last_attendance s !! name = Some t ->
           filter (fun x => att_name x = name) rows = [] /\
           last_attendance s' !! name = Some t).
Proof.
  intros Hpos. induction faces as [|[n c] rest IH]; intros s s' r H; simpl in H.
  - injection H as <- <-. exists []. rewrite app_nil_r. split; [reflexivity|].
    intros name. simpl. split; [lia | auto].
  - destruct (process_face threshold minutes t s n c) as [s1 r1] eqn:E1.
    destruct (process_face_rows t s n c s1 r1 Hpos E1)
      as (rows1 & Hatt1 & Hshape & Hblocked & Hkeep).
    assert (Hrows1 : forall name : string,
               name <> n -> filter (fun x => att_name x = name) rows1 = []).
    { intros name Hne. destruct Hshape as [-> | (row & -> & Hrow & _)]; [reflexivity|].
      rewrite filter_cons_False by (rewrite Hrow; congruence). reflexivity. }
    assert (Hlen1 : forall name : string,
               (length (filter (fun x => att_name x = name) rows1) <= 1)%nat).
    { intros name. pose proof (length_filter (fun x => att_name x = name) rows1).
      destruct Hshape as [-> | (row & -> & _)]; simpl in *; lia. }
    destruct r1 as [[]|e].
    + destruct (IH s1 s' r H) as (rows2 & Hatt2 & Hall2).
      exists (rows1 ++ rows2). rewrite Hatt2, Hatt1, <- app_assoc.
      split; [reflexivity|]. intros name. rewrite filter_app, length_app.
      destruct (Hall2 name) as [Hlen2 Hblocked2]. split.
      * destruct Hshape as [-> | (row & -> & Hrow & Hset)]; [simpl; exact Hlen2|].
        destruct (decide (name = n)) as [->|Hne].
        -- destruct (Hblocked2 (Hset eq_refl)) as [-> _].
           rewrite filter_cons_True by exact Hrow. simpl. lia.
        -- rewrite (Hrows1 name Hne). simpl. exact Hlen2.
      * intros Hlast. destruct (Hblocked2 (Hkeep name Hlast)) as [-> Hlast'].
        split; [|exact Hlast']. rewrite app_nil_r.
        destruct (decide (name = n)) as [->|Hne];
          [rewrite (Hblocked Hlast); reflexivity | apply Hrows1; exact Hne].
    + injection H as <- <-. exists rows1. split; [exact Hatt1|].
      intros name. split; [apply Hlen1|].
      intros Hlast. split; [|apply Hkeep; exact Hlast].
      destruct (decide (name = n)) as [->|Hne];
        [rewrite (Hblocked Hlast); reflexivity | apply Hrows1; exact Hne].
Qed.

(** X19. With a positive cooldown, one frame records a person at most
    once, however many faces of the frame carry that name: the table gains
    at most one row of any name per call of [process_attendance]. *)
Theorem once_per_frame t s face_names face_confidences s' r (name : string) :
  0 < minutes ->
  process_attendance threshold minutes t s face_names face_confidences = (s', r) ->
  attendance (db s) `prefix_of` attendance (db s') /\
  (length (filter (fun x => att_name x = name)
             (drop (length (attendance (db s))) (attendance (db s')))) <= 1)%nat.
Proof.
  intros Hpos H.
  destruct (process_faces_once t _ Hpos s s' r H) as (rows & Hatt & Hall).
  rewrite Hatt, drop_app_length. split; [apply prefix_app_r; reflexivity|].
  apply Hall.
Qed.

End AttendanceLoop.

(** ** The summary and the chart *)

#[local] Instance date_desc_total : Total date_desc.
Proof. intros a b. unfold date_desc. lia. Qed.

#[local] Instance date_desc_trans : Transitive date_desc.
Proof. intros a b c. unfold date_desc. lia. Qed.

Lemma elem_of_dates (rows : list AttendanceRow) (d : Z) :
  d ∈ merge_sort date_desc (remove_dups (att_date <$> rows)) <->
  exists row, row ∈ rows /\ att_date row = d.
Proof.
  rewrite merge_sort_Permutation, elem_of_remove_dups, list_elem_of_fmap.
  split; intros (row & H1 & H2); exists row; auto.
Qed.

Lemma dates_strictly_descending (rows : list AttendanceRow) :
  StronglySorted (fun a b => (b < a)%Z)
    (merge_sort date_desc (remove_dups (att_date <$> rows))).
Proof.
  assert (Hnd : NoDup (merge_sort date_desc (remove_dups (att_date <$> rows))))
    by (rewrite merge_sort_Permutation; apply NoDup_remove_dups).
  pose proof (StronglySorted_merge_sort date_desc
                (remove_dups (att_date <$> rows))) as Hs.
  induction Hs as [|a l Hs IH Hall]; [constructor|].
  apply NoDup_cons in Hnd as [Hna Hnd].
  constructor; [apply IH; exact Hnd|].
  apply Forall_forall. intros b Hb.
  rewrite Forall_forall in Hall. specialize (Hall b Hb).
  unfold date_desc in Hall. assert (a <> b) by (intros ->; contradiction). lia.
Qed.

Lemma rows_on_positive (rows : list AttendanceRow) (d : Z) :
  (0 < length (rows_on d rows))%nat <-> exists row, row ∈ rows /\ att_date row = d.
Proof.
  unfold rows_on. split.
  - intros H. destruct (filter _ rows) as [|row l] eqn:E; [simpl in H; lia|].
    assert (Hin : row ∈ filter (fun r => att_date r = d) rows) by (rewrite E; left).
    apply list_elem_of_filter in Hin as [? ?]. eauto.
  - intros (row & Hin & Hd).
    assert (Hin' : row ∈ filter (fun r => att_date r = d) rows)
      by (apply list_elem_of_filter; auto).
    destruct (filter _ rows); [inversion Hin' | simpl; lia].
Qed.

Lemma elem_of_grouped (rows : list AttendanceRow) (d : Z) (n : nat) :
  (d, n) ∈ grouped_by_date rows <->
  n = length (rows_on d rows) /\ (0 < n)%nat.
Proof.
  unfold grouped_by_date. rewrite list_elem_of_fmap. split.
  - intros (d' & [= -> ->] & Hd). split; [reflexivity|].
    apply rows_on_positive, elem_of_dates. exact Hd.
  - intros [-> Hpos]. exists d. split; [reflexivity|].
    apply elem_of_dates, rows_on_positive. exact Hpos.
Qed.

Lemma grouped_sorted (rows : list AttendanceRow) :
  StronglySorted (fun a b : Z * nat => (b.1 < a.1)%Z) (grouped_by_date rows).
Proof.
  unfold grouped_by_date.
  pose proof (dates_strictly_descending rows) as Hs.
  induction Hs as [|a l Hs IH Hall]; [constructor|].
  simpl. constructor; [exact IH|].
  apply Forall_forall. intros p Hp.
  apply list_elem_of_fmap in Hp as (b & -> & Hb). simpl.
  rewrite Forall_forall in Hall. apply Hall. exact Hb.
Qed.

Lemma sum_list_fmap {A} (f : A -> nat) (l : list A) :
  sum_list (f <$> l) = sum_list_with f l.
Proof.
  induction l as [|x l IH]; [reflexivity|].
  rewrite fmap_cons. simpl in *. unfold id at 1. f_equal. exact IH.
Qed.

(** The counts of a set of dates that covers the rows add up to the number
    of rows. *)
Lemma counts_add_up (dates : list Z) (rows : list AttendanceRow) :
  NoDup dates ->
  (forall row, row ∈ rows -> att_date row ∈ dates) ->
  sum_list_with (fun d => length (rows_on d rows)) dates = length rows.
Proof.
  intros Hnd. induction rows as [|row rows IH]; intros Hcover.
  - clear. induction dates as [|d dates IHd]; [reflexivity|].
    simpl. exact IHd.
  - assert (Hone : forall ds : list Z, NoDup ds ->
               sum_list_with (fun d => length (rows_on d (row :: rows))) ds =
               ((if decide (att_date row ∈ ds) then 1 else 0) +
                sum_list_with (fun d => length (rows_on d rows)) ds)%nat).
    { clear. intros ds Hnd. induction ds as [|d ds IHd]; [reflexivity|].
      apply NoDup_cons in Hnd as [Hnotin Hnd]. simpl. rewrite (IHd Hnd).
      unfold rows_on at 1. rewrite filter_cons. fold (rows_on d rows).
      destruct (decide (att_date row = d)) as [Heq|Hne];
        destruct (decide (att_date row ∈ ds)) as [Hin|Hout];
        destruct (decide (att_date row ∈ d :: ds)) as [Hin'|Hout'];
        simpl; try lia; exfalso.
      - apply Hnotin. rewrite <- Heq. exact Hin.
      - apply Hnotin. rewrite <- Heq. exact Hin.
      - apply Hout'. rewrite Heq. left.
      - apply Hout'. right. exact Hin.
      - apply elem_of_cons in Hin' as [?|?]; congruence. }
    rewrite (Hone dates Hnd), IH.
    + rewrite decide_True by (apply Hcover; left). reflexivity.
    + intros r Hr. apply Hcover. right. exact Hr.
Qed.

Lemma grouped_counts_add_up (rows : list AttendanceRow) :
  sum_list (snd <$> grouped_by_date rows) = length rows.
Proof.
  unfold grouped_by_date. rewrite <- list_fmap_compose, sum_list_fmap.
  apply (counts_add_up _ rows).
  - rewrite merge_sort_Permutation. apply NoDup_remove_dups.
  - intros row Hrow. apply elem_of_dates. eauto.
Qed.

Lemma rows_on_in_range (s e d : Z) (rows : list AttendanceRow) :
  (s <= d <= e)%Z ->
  rows_on d (filter (fun r => (s <= att_date r)%Z /\ (att_date r <= e)%Z) rows) =
  rows_on d rows.
Proof.
  intros Hd. unfold rows_on. rewrite list_filter_filter.
  apply list_filter_iff. intros r. split; [tauto|]. intros <-. split; [reflexivity | lia].
Qed.

(** X20. The summary of a date range has one line per date of the range
    that has attendance, with the number of rows of that date, most recent
    date first, and its counts add up to the number of rows in the range.
    Without both bounds the same grouping of all rows is cut to its first
    30 lines, and a single bound is ignored. *)
Theorem summary_spec (s e : Z) (db : AttendanceDatabase) :
  let rows := attendance db in
  let ranged := get_attendance_summary (Some s) (Some e) db in
  let recent := get_attendance_summary None None db in
  (forall d n, (d, n) ∈ ranged <->
      (s <= d <= e)%Z /\ n = length (rows_on d rows) /\ (0 < n)%nat) /\
  StronglySorted (fun a b : Z * nat => (b.1 < a.1)%Z) ranged /\
  sum_list (snd <$> ranged) =
    length (filter (fun r => (s <= att_date r)%Z /\ (att_date r <= e)%Z) rows) /\
  (length recent <= 30)%nat /\
  recent = take 30 (grouped_by_date rows) /\
  (forall d n, (d, n) ∈ recent -> n = length (rows_on d rows) /\ (0 < n)%nat) /\
  get_attendance_summary (Some s) None db = recent /\
  get_attendance_summary None (Some e) db = recent.
Proof.
  intros rows ranged recent. subst ranged recent rows.
  unfold get_attendance_summary.
  split; [|split; [apply grouped_sorted | split; [apply grouped_counts_add_up|]]].
  - intros d n. rewrite elem_of_grouped. split.
    + intros [-> Hpos]. pose proof Hpos as Hpos'.
      apply rows_on_positive in Hpos' as (row & Hrow & Hd).
      apply list_elem_of_filter in Hrow as [Hrange _]. rewrite Hd in Hrange.
      assert (Hd' : (s <= d <= e)%Z) by lia.
      rewrite (rows_on_in_range s e d _ Hd') in *. auto.
    + intros (Hd & -> & Hpos). rewrite (rows_on_in_range s e d _ Hd). auto.
  - split; [rewrite length_take; lia|]. split; [reflexivity|].
    split; [|split; reflexivity].
    intros d n Hin. apply elem_of_grouped.
    eapply (subseteq_take 30). exact Hin.
Qed.

Lemma chart_count_cons (p : Z * nat) (l : list (Z * nat)) (d : Z) :
  chart_count (p :: l) d = if decide (p.1 = d) then p.2 else chart_count l d.
Proof.
  unfold chart_count. rewrite filter_cons.
  destruct (decide (p.1 = d)); reflexivity.
Qed.

(** The inner loop of the chart on a grouping: the count of the date. *)
Lemma chart_count_grouped (rows : list AttendanceRow) (d : Z) :
  chart_count (grouped_by_date rows) d = length (rows_on d rows).
Proof.
  unfold grouped_by_date.
  assert (Hgen : forall ds : list Z,
             chart_count ((fun d' => (d', length (rows_on d' rows))) <$> ds) d =
             if decide (d ∈ ds) then length (rows_on d rows) else O).
  { induction ds as [|d' ds IH]; [reflexivity|].
    rewrite fmap_cons, chart_count_cons, IH. cbn [fst snd].
    destruct (decide (d' = d)) as [->|Hne];
      destruct (decide (d ∈ ds)) as [Hin|Hout];
      destruct (decide (d ∈ _ :: ds)) as [Hin'|Hout'];
      try reflexivity; exfalso.
    - apply Hout'. left.
    - apply Hout'. left.
    - apply Hout'. right. exact Hin.
    - apply elem_of_cons in Hin' as [?|?]; congruence. }
  rewrite Hgen. destruct (decide _) as [Hin|Hout]; [reflexivity|].
  destruct (length (rows_on d rows)) as [|k] eqn:E; [reflexivity|].
  exfalso. apply Hout, elem_of_dates, rows_on_positive. lia.
Qed.

Lemma strftime_date_shift (t k : Z) :
  strftime_date (t + timedelta_days k) = (strftime_date t + k)%Z.
Proof. unfold strftime_date, timedelta_days. apply Z.div_add. lia. Qed.

(** An instant is a [datetime] exactly when its day is one of the days of
    the years 1 to 9999. *)
Lemma representable_date (t : Z) :
  representable t <-> (date_min <= strftime_date t <= date_max)%Z.
Proof.
  unfold representable, strftime_date, timedelta_days, date_min, date_max.
  pose proof (Z.div_mod t 86400000000 ltac:(lia)) as Hdm.
  pose proof (Z.mod_pos_bound t 86400000000 ltac:(lia)) as Hmod.
  lia.
Qed.

(** The loop of the chart when every date it computes exists. *)
Lemma chart_data_fits (summary : list (Z * nat)) (start_date : Z)
    (range_days : list Z) :
  Forall (fun i => representable (start_date + timedelta_days i)) range_days ->
  chart_data summary start_date range_days =
    Fits ((fun i =>
             let current_date := strftime_date (start_date + timedelta_days i) in
             (current_date, chart_count summary current_date)) <$> range_days).
Proof.
  induction 1 as [|i rest Hi _ IH]; [reflexivity|].
  simpl. unfold datetime_add. rewrite decide_True by exact Hi.
  rewrite IH. reflexivity.
Qed.

(** X21. For a reading of the clock in the years 1000 to 9999: when the
    first day of the chart, [days - 1] days before today, is a day of those
    years, the chart has exactly one entry per day of the last [days] days,
    in order of date with today last, and the count of each entry is the
    number of attendance rows of that date (0 for a day without
    attendance); it is empty for [days <= 0].  When the first day is not a
    day of the years 1 to 9999, its computation raises [OverflowError] and
    there is no chart.  Only the clock is read. *)
Theorem chart_spec (days : Z) (db : AttendanceDatabase) :
  let now := now_at (clock db) (reads (clock db)) in
  let today := strftime_date now in
  let first := (today - (days - 1))%Z in
  let db' :=
    with_clock {| now_at := now_at (clock db); reads := S (reads (clock db)) |} db in
  four_digit_year now ->
  ((date_1000 <= first <= date_max)%Z ->
     api_attendance_chart days db =
       (Fits ((fun i => let d := (first + i)%Z in
                        (d, length (rows_on d (attendance db)))) <$> seqZ 0 days),
        db')) /\
  (~ (date_min <= first <= date_max)%Z ->
     api_attendance_chart days db = (OverflowError, db')).
Proof.
  intros now today first db' Hnow. subst db'.
  unfold api_attendance_chart. simpl. fold now.
  assert (Hstart : strftime_date (now - timedelta_days (days - 1)) = first).
  { replace (now - timedelta_days (days - 1))%Z
      with (now + timedelta_days (- (days - 1)))%Z
      by (unfold timedelta_days; lia).
    rewrite strftime_date_shift. fold today. unfold first. lia. }
  apply four_digit_year_representable, representable_date in Hnow.
  fold today in Hnow.
  unfold datetime_sub.
  split; intros Hfirst.
  - assert (Hr : (date_min <= first <= date_max)%Z)
      by (unfold date_min, date_1000 in *; lia).
    rewrite decide_True by (rewrite representable_date, Hstart; exact Hr).
    rewrite chart_data_fits.
    + do 2 f_equal. apply list_fmap_ext. intros k i Hi.
      apply lookup_seqZ in Hi as [-> Hk]. cbv zeta.
      rewrite strftime_date_shift, Hstart. f_equal.
      unfold get_attendance_summary. rewrite ?Hstart. fold today.
      rewrite chart_count_grouped. f_equal. apply rows_on_in_range.
      unfold first. lia.
    + apply Forall_forall. intros i Hi.
      apply elem_of_seqZ in Hi.
      rewrite representable_date, strftime_date_shift, Hstart.
      unfold first in *. lia.
  - rewrite decide_False by (rewrite representable_date, Hstart; exact Hfirst).
    reflexivity.
Qed.

(** ** The route that deletes a user *)

(** X22. On a writable database and a store with parallel lists, the
    [delete_user] route leaves no trace of the name in the directory, the
    attendance table or the face store, and touches no other identity; it
    flashes "not found" exactly when the name was neither in the directory
    nor in the face store, even though attendance rows of that name are
    deleted all the same.  On an unwritable database it flashes an error
    and the face store is not touched either. *)
Theorem delete_route_spec {Encoding} (io : save_outcome) (name : string)
    (db : AttendanceDatabase) (m : FaceRecognitionModel Encoding)
    (d : Disk Encoding) :
  parallel m ->
  let r := delete_user_route io name db m d in
  (db_writable db = true ->
     r.1.1.1 = (if bool_decide (name ∈ user_name <$> users db)
                   || bool_decide (name ∈ known_names m)
                then FlashDeleted else FlashNotFound) /\
     get_user_by_name r.1.1.2 name = None /\
     attendance r.1.1.2 = filter (fun row => att_name row <> name) (attendance db) /\
     (name ∉ get_known_names r.1.2) /\
     entries r.1.2 = filter (fun p => p.1 <> name) (entries m)) /\
  (db_writable db = false ->
     r = (FlashError, db, m, d)).
Proof.
  intros Hpar r. subst r. unfold delete_user_route. split.
  - intros Hw.
    destruct (delete_user_effects name db Hw) as (Hres & Hatt & _ & Hgone & _).
    destruct (delete_user name db) as [db' res]. simpl in *. subst res.
    destruct (remove_person_entries io name m d Hpar)
      as (ok & n & m' & d' & Heq & Hent & Hpar' & _ & Hnone & Hsome).
    rewrite Heq. simpl.
    split; [|split; [exact Hgone | split; [exact Hatt | split; [|exact Hent]]]].
    + destruct (bool_decide (name ∈ known_names m)) eqn:E.
      * apply bool_decide_eq_true in E. rewrite (Hsome E). reflexivity.
      * apply bool_decide_eq_false in E. destruct (Hnone E) as [-> _]. reflexivity.
    + rewrite elem_of_get_known_names.
      rewrite (names_after_filter name m m' Hpar Hpar' Hent). tauto.
  - intros Hw. unfold delete_user. rewrite Hw. reflexivity.
Qed.

(** ** Capturing face samples *)

Lemma open_camera_in (try_open : nat -> open_outcome) (names : list string) :
  forall (i : nat) (b : string),
    open_camera try_open i names = Some b ->
    exists k, names !! k = Some b /\ try_open (i + k)%nat = CameraOpened /\
              forall j, (j < k)%nat -> try_open (i + j)%nat <> CameraOpened.
Proof.
  induction names as [|n names IH]; intros i b H; simpl in H; [discriminate|].
  destruct (try_open i) eqn:E.
  - injection H as <-. exists O. rewrite Nat.add_0_r.
    split; [reflexivity|]. split; [exact E|]. intros j Hj. lia.
  - destruct (IH (S i) b H) as (k & Hk & Hopen & Hbefore).
    exists (S k). split; [exact Hk|].
    replace (i + S k)%nat with (S i + k)%nat by lia. split; [exact Hopen|].
    intros [|j] Hj; [rewrite Nat.add_0_r; congruence|].
    replace (i + S j)%nat with (S i + j)%nat by lia. apply Hbefore. lia.
  - destruct (IH (S i) b H) as (k & Hk & Hopen & Hbefore).
    exists (S k). split; [exact Hk|].
    replace (i + S k)%nat with (S i + k)%nat by lia. split; [exact Hopen|].
    intros [|j] Hj; [rewrite Nat.add_0_r; congruence|].
    replace (i + S j)%nat with (S i + j)%nat by lia. apply Hbefore. lia.
Qed.

Lemma capture_loop_spec (person_dir : list string) (b : string) (n : Z)
    (frames : list capture_frame) :
  forall (k : nat) (paths result : list (list string)),
    capture_loop person_dir b n k paths frames = Some result ->
    exists j : nat,
      result = paths ++ (sample_path person_dir b <$> seq (S k) j) /\
      (j = O \/ (Z.of_nat (k + j) <= n)%Z).
Proof.
  induction frames as [|f rest IH]; intros k paths result H; simpl in H.
  - destruct (Z.of_nat k <? n)%Z; [discriminate|]. injection H as <-.
    exists O. simpl. rewrite app_nil_r. auto.
  - destruct (Z.of_nat k <? n)%Z eqn:Hlt.
    2:{ injection H as <-. exists O. simpl. rewrite app_nil_r. auto. }
    apply Z.ltb_lt in Hlt.
    destruct (read_ok f); simpl in H.
    2:{ injection H as <-. exists O. simpl. rewrite app_nil_r. auto. }
    destruct (key_pressed f).
    + destruct (0 <? faces_in_frame f)%nat.
      * destruct (IH (S k) _ result H) as (j & -> & Hj).
        exists (S j). rewrite <- app_assoc. split; [reflexivity|].
        right. destruct Hj as [-> | Hj]; lia.
      * apply IH. exact H.
    + injection H as <-. exists O. simpl. rewrite app_nil_r. auto.
    + apply IH. exact H.
Qed.

(** X23. The samples returned by [capture_face_samples] are named after
    the camera backend, not after the person: when a camera opens with
    backend [b] (the first one that opens), the returned paths are
    [b/b_1.jpg], [b/b_2.jpg], ... under the datasets directory, numbered
    consecutively from 1, and there are at most [num_samples] of them; the
    [name] argument has no influence on the result.  When no backend opens
    a camera the result is the empty list. *)
Theorem capture_paths_spec (datasets_dir : list string)
    (try_open : nat -> open_outcome) (name : string) (num_samples : Z)
    (frames : list capture_frame) (paths : list (list string)) :
  capture_face_samples datasets_dir try_open name num_samples frames = Some paths ->
  ((forall k, (k < 3)%nat -> try_open k <> CameraOpened) /\ paths = []) \/
  (exists (k : nat) (b : string),
      backends !! k = Some b /\ try_open k = CameraOpened /\
      (forall j, (j < k)%nat -> try_open j <> CameraOpened) /\
      paths = (fun i => datasets_dir ++ [b; b +:+ "_" +:+ pretty i +:+ ".jpg"])
                <$> seq 1 (length paths) /\
      (Z.of_nat (length paths) <= Z.max 0 num_samples)%Z /\
      forall name' : string,
        capture_face_samples datasets_dir try_open name' num_samples frames
          = Some paths).
Proof.
  unfold capture_face_samples. intros H.
  destruct (open_camera try_open 0 backends) as [b|] eqn:E.
  - right. destruct (open_camera_in try_open backends 0 b E) as (k & Hk & Hopen & Hbefore).
    exists k, b. simpl in Hopen. split; [exact Hk|]. split; [exact Hopen|].
    split; [exact Hbefore|].
    destruct (capture_loop_spec _ b num_samples frames 0 [] paths H) as (j & -> & Hj).
    simpl. rewrite length_fmap, length_seq.
    split; [|split; [destruct Hj as [-> | Hj]; lia | intros name'; exact H]].
    apply list_fmap_ext. intros i x Hx. unfold sample_path.
    rewrite <- app_assoc. reflexivity.
  - left. injection H as <-. split; [|reflexivity].
    intros k Hk Hopen. unfold backends in E. simpl in E.
    destruct k as [|[|[|k]]]; [| | |lia].
    + rewrite Hopen in E. discriminate.
    + destruct (try_open 0%nat); try discriminate; rewrite Hopen in E; discriminate.
    + destruct (try_open 0%nat); try discriminate;
        destruct (try_open 1%nat); try discriminate;
        rewrite Hopen in E; discriminate.
Qed.

(** A frame that adds a sample: read, with a face, and the space key. *)
Lemma capture_loop_completes (person_dir : list string) (b : string) (n : nat)
    (frames : list capture_frame) :
  forall (k : nat) (paths : list (list string)),
    Forall (fun f => read_ok f = true /\ key_pressed f <> KeyQuit) frames ->
    (n <= k + length (filter (fun f => key_pressed f = KeySpace /\
                                        (0 < faces_in_frame f)%nat) frames))%nat ->
    exists result,
      capture_loop person_dir b (Z.of_nat n) k paths frames = Some result /\
      length result = (length paths + (n - k))%nat.
Proof.
  induction frames as [|f rest IH]; intros k paths Hall Hcount; simpl.
  - simpl in Hcount. replace (Z.of_nat k <? Z.of_nat n)%Z with false
      by (symmetry; apply Z.ltb_ge; lia).
    exists paths. split; [reflexivity | lia].
  - apply Forall_cons in Hall as [[Hread Hkey] Hall].
    destruct (Z.of_nat k <? Z.of_nat n)%Z eqn:Hlt.
    2:{ apply Z.ltb_ge in Hlt. exists paths. split; [reflexivity | lia]. }
    apply Z.ltb_lt in Hlt. rewrite Hread. simpl.
    rewrite filter_cons in Hcount.
    destruct (key_pressed f) eqn:Ek; [|congruence|].
    + destruct (0 <? faces_in_frame f)%nat eqn:Ef.
      * apply Nat.ltb_lt in Ef.
        rewrite decide_True in Hcount by (split; [reflexivity | exact Ef]).
        simpl in Hcount.
        destruct (IH (S k) (paths ++ [sample_path person_dir b (S k)]) Hall)
          as (result & Hres & Hlen); [lia|].
        exists result. split; [exact Hres|].
        rewrite Hlen, length_app. simpl. lia.
      * apply Nat.ltb_ge in Ef.
        rewrite decide_False in Hcount by lia.
        apply IH; assumption.
    + rewrite decide_False in Hcount by (intros [? _]; discriminate).
      apply IH; assumption.
Qed.

(** X24. The capture returns with exactly [num_samples] paths as soon as
    the camera opens, every frame is read, nobody presses [q], and at least
    [num_samples] frames show a face while the space key is pressed; frames
    without a face or with another key add nothing. *)
Theorem capture_completes (datasets_dir : list string)
    (try_open : nat -> open_outcome) (name : string) (num_samples : nat)
    (frames : list capture_frame) :
  (exists k, (k < 3)%nat /\ try_open k = CameraOpened) ->
  Forall (fun f => read_ok f = true /\ key_pressed f <> KeyQuit) frames ->
  (num_samples <= length (filter (fun f => key_pressed f = KeySpace /\
                                           (0 < faces_in_frame f)%nat) frames))%nat ->
  exists paths,
    capture_face_samples datasets_dir try_open name (Z.of_nat num_samples) frames
      = Some paths /\
    length paths = num_samples.
Proof.
  intros (k & Hk & Hopen) Hall Hcount. unfold capture_face_samples.
  destruct (open_camera try_open 0 backends) as [b|] eqn:E.
  - destruct (capture_loop_completes (datasets_dir ++ [b]) b num_samples frames
                0 [] Hall) as (result & Hres & Hlen); [simpl; lia|].
    exists result. split; [exact Hres | simpl in Hlen; lia].
  - exfalso. unfold backends in E. simpl in E.
    destruct k as [|[|[|k]]]; [| | |lia].
    + rewrite Hopen in E. discriminate.
    + destruct (try_open 0%nat); try discriminate; rewrite Hopen in E; discriminate.
    + destruct (try_open 0%nat); try discriminate;
        destruct (try_open 1%nat); try discriminate;
        rewrite Hopen in E; discriminate.
Qed.

(** ** The main loop *)

Section MainLoopProofs.

Context {Encoding : Type}.
Variable dist : Encoding -> Encoding -> Q.
Variable face_model : FaceRecognitionModel Encoding.
Variables (tolerance threshold minutes : Q).

Lemma handle_key_count (k : loop_key) (st st' : loop_state) :
  handle_key k st = GoOn st' -> frame_count st' = frame_count st.
Proof. destruct k; simpl; intros [= <-]; reflexivity. Qed.

Lemma finish_turn_count (inp : loop_input Encoding) (st st' : loop_state) :
  finish_turn inp st = GoOn st' -> frame_count st' = frame_count st.
Proof.
  unfold finish_turn.
  destruct (frame_count st mod 30 =? 0)%nat;
    [destruct (Qeq_bool _ _); [discriminate|]|];
    intros H; apply handle_key_count in H; exact H.
Qed.

Lemma run_turn_count (st st' : loop_state) (inp : loop_input Encoding) :
  run_turn dist face_model tolerance threshold minutes st inp = GoOn st' ->
  frame_count st' = S (frame_count st).
Proof.
  unfold run_turn. destruct (grabbed inp) as [faces|]; [|discriminate].
  cbv zeta. cbn [frame_count]. destruct (S (frame_count st) mod 3 =? 0)%nat.
  - destruct (recognize_faces _ _ _ _) as [results|e]; [|discriminate].
    destruct (process_attendance _ _ _ _ _ _) as [s [[]|e]]; [|discriminate].
    intros H. apply finish_turn_count in H. exact H.
  - intros H. apply finish_turn_count in H. exact H.
Qed.

Lemma run_turn_skipped (st : loop_state) (inp : loop_input Encoding)
    (faces : list Encoding) :
  (S (frame_count st) mod 3 =? 0)%nat = false ->
  run_turn dist face_model tolerance threshold minutes st (with_faces faces inp) =
  run_turn dist face_model tolerance threshold minutes st inp.
Proof.
  intros H. unfold run_turn, with_faces. cbn [grabbed].
  destruct (grabbed inp); cbn [fmap option_fmap option_map]; [|reflexivity].
  cbv zeta. cbn [frame_count]. rewrite H. reflexivity.
Qed.

(** X25. Only every third frame counts: replacing the faces of all the
    other frames by any faces whatever changes nothing in what [run] does
    or returns; and a turn on such a frame leaves the cooldown map, the
    attendance table, the CSV log and the trace of the recorder untouched,
    unless the key pressed is [r], which empties the map. *)
Theorem frame_skipping (other : nat -> list Encoding)
    (inputs : list (loop_input Encoding)) :
  (forall st : loop_state,
      run_from dist face_model tolerance threshold minutes st
        (replace_skipped other (frame_count st) inputs) =
      run_from dist face_model tolerance threshold minutes st inputs) /\
  (forall (st st' : loop_state) (inp : loop_input Encoding),
      (S (frame_count st) mod 3 =? 0)%nat = false ->
      run_turn dist face_model tolerance threshold minutes st inp = GoOn st' ->
      pressed inp <> PressR ->
      attendance_view st' = attendance_view st).
Proof.
  split.
  - induction inputs as [|inp rest IH]; intros st; [reflexivity|].
    cbn [replace_skipped run_from].
    assert (Hturn :
      run_turn dist face_model tolerance threshold minutes st
        (if (S (frame_count st) mod 3 =? 0)%nat then inp
         else with_faces (other (S (frame_count st))) inp) =
      run_turn dist face_model tolerance threshold minutes st inp).
    { destruct (S (frame_count st) mod 3 =? 0)%nat eqn:E; [reflexivity|].
      apply run_turn_skipped. exact E. }
    rewrite Hturn.
    destruct (run_turn dist face_model tolerance threshold minutes st inp)
      as [st'| |] eqn:E; try reflexivity.
    rewrite <- (run_turn_count st st' inp E). apply IH.
  - intros st st' inp Hskip Hturn Hkey.
    unfold run_turn in Hturn.
    destruct (grabbed inp) as [faces|]; [|discriminate].
    cbv zeta in Hturn. cbn [frame_count] in Hturn.
    rewrite Hskip in Hturn. unfold finish_turn in Hturn.
    cbn [frame_count] in Hturn.
    destruct (S (frame_count st) mod 30 =? 0)%nat;
      [destruct (Qeq_bool _ _); [discriminate|]|];
      destruct (pressed inp); simpl in Hturn; try discriminate; try congruence;
      injection Hturn as <-; reflexivity.
Qed.

(** X26. The [r] key is handled at the end of the turn, after the frame
    has been processed: when the turn goes on, the cooldown map is empty,
    so nobody is within the cooldown any more, not even a person recorded
    in that very turn; the rows of the table stay. *)
Theorem reset_key_forgets (st st' : loop_state) (inp : loop_input Encoding) :
  pressed inp = PressR ->
  run_turn dist face_model tolerance threshold minutes st inp = GoOn st' ->
  last_attendance (system st') = ∅ /\
  (forall (name : string) (t : Q),
      within_cooldown minutes (last_attendance (system st')) name t = false) /\
  attendance (db (system st)) `prefix_of` attendance (db (system st')).
Proof.
  intros Hkey Hturn.
  assert (Hfinish : forall st1,
             finish_turn inp st1 = GoOn st' ->
             last_attendance (system st') = ∅ /\
             attendance (db (system st')) = attendance (db (system st1))).
  { intros st1. unfold finish_turn. rewrite Hkey.
    destruct (frame_count st1 mod 30 =? 0)%nat;
      [destruct (Qeq_bool _ _); [discriminate|]|];
      simpl; intros [= <-]; split; reflexivity. }
  assert (Hgoal : last_attendance (system st') = ∅ /\
                  attendance (db (system st)) `prefix_of` attendance (db (system st'))).
  { unfold run_turn in Hturn.
    destruct (grabbed inp) as [faces|]; [|discriminate].
    cbv zeta in Hturn. cbn [frame_count system] in Hturn.
    destruct (S (frame_count st) mod 3 =? 0)%nat.
    - destruct (recognize_faces _ _ _ _) as [results|e]; [|discriminate].
      destruct (process_attendance _ _ _ _ _ _) as [s [[]|e]] eqn:Ep; [|discriminate].
      destruct (Hfinish _ Hturn) as [Hmap Hrows]. split; [exact Hmap|].
      rewrite Hrows. simpl.
      destruct (process_faces_effects threshold minutes _ _ _ _ _ Ep)
        as (_ & rows & _ & -> & _).
      apply prefix_app_r. reflexivity.
    - destruct (Hfinish _ Hturn) as [Hmap Hrows]. split; [exact Hmap|].
      rewrite Hrows. reflexivity. }
  destruct Hgoal as [Hmap Hrows]. split; [exact Hmap|]. split; [|exact Hrows].
  intros name t. unfold within_cooldown. rewrite Hmap, lookup_empty. reflexivity.
Qed.

End MainLoopProofs.

(** ** Concrete instances *)

Lemma restart_restores_store_witness :
  init_model (add_person SaveCompleted "bob" [Some [2%Z]]
                {| known_encodings := [1%Z]; known_names := ["alice"%string] |}
                {| encodings_file := Missing; names_file := Missing |}).2 =
  {| known_encodings := [1%Z; 2%Z]; known_names := ["alice"; "bob"]%string |}.
Proof.
  destruct (restart_restores_store "bob"%string [Some [2%Z]]
              {| known_encodings := [1%Z]; known_names := ["alice"%string] |}
              {| encodings_file := Missing; names_file := Missing |}) as [Hadd _].
  destruct (Hadd true
              {| known_encodings := [1%Z; 2%Z]; known_names := ["alice"; "bob"]%string |}
              _ eq_refl) as [Hok _].
  apply Hok. reflexivity.
Defined.

Lemma unreadable_files_start_empty_witness :
  recognize_faces zdist
    (init_model {| encodings_file := Corrupt; names_file := Pickled ["alice"%string] |})
    Config.FACE_RECOGNITION_TOLERANCE [1%Z; 2%Z] = Ok [(Unknown, 0); (Unknown, 0)].
Proof.
  apply (unreadable_files_start_empty zdist
           {| encodings_file := Corrupt; names_file := Pickled ["alice"%string] |}
           Config.FACE_RECOGNITION_TOLERANCE [1%Z; 2%Z]).
  left. intros encs. discriminate.
Defined.

Lemma match_is_sound_witness :
  ("alice"%string = Unknown /\ 1 - zdist 0 0 = 0) \/
  (exists (i : nat) (k : Z),
      ["alice"; "bob"]%string !! i = Some "alice"%string /\
      [0%Z; 10%Z] !! i = Some k /\
      zdist k 0 <= Config.FACE_RECOGNITION_TOLERANCE /\
      1 - zdist 0 0 = 1 - zdist k 0).
Proof.
  apply (match_is_sound zdist
           {| known_encodings := [0%Z; 10%Z]; known_names := ["alice"; "bob"]%string |}
           Config.FACE_RECOGNITION_TOLERANCE 0%Z "alice"%string (1 - zdist 0 0)).
  reflexivity.
Defined.

Lemma recognize_faces_pointwise_witness :
  exists rs,
    recognize_faces zdist
      {| known_encodings := [0%Z; 10%Z]; known_names := ["alice"; "bob"]%string |}
      Config.FACE_RECOGNITION_TOLERANCE [10%Z; 5%Z] = Ok rs /\
    length rs = 2%nat.
Proof.
  destruct (recognize_faces_pointwise zdist
              {| known_encodings := [0%Z; 10%Z]; known_names := ["alice"; "bob"]%string |}
              Config.FACE_RECOGNITION_TOLERANCE) as [Hok _].
  destruct (Hok eq_refl [10%Z; 5%Z]) as (rs & Hrs & Hall).
  exists rs. split; [exact Hrs|].
  apply Forall2_length in Hall. symmetry. exact Hall.
Defined.

Lemma add_then_remove_restores_witness :
  exists d',
    remove_person SaveCompleted "bob"
      {| known_encodings := [1%Z; 2%Z]; known_names := ["alice"; "bob"]%string |}
      {| encodings_file := Pickled [1%Z; 2%Z];
         names_file := Pickled ["alice"; "bob"]%string |} =
    Ok (true, 1%nat,
        {| known_encodings := [1%Z]; known_names := ["alice"%string] |}, d').
Proof.
  apply (add_then_remove_restores SaveCompleted SaveCompleted "bob"%string
           [Some [2%Z]]
           {| known_encodings := [1%Z]; known_names := ["alice"%string] |}
           {| encodings_file := Missing; names_file := Missing |}).
  - reflexivity.
  - intros H. apply list_elem_of_In in H. simpl in H.
    destruct H as [H|[]]. discriminate.
Defined.

(** A store whose encodings list is longer than its names list. *)
Lemma remove_twice_witness :
  remove_person SaveCompleted "alice"
    {| known_encodings := [2%Z; 3%Z]; known_names := ["bob"%string] |}
    {| encodings_file := Pickled [2%Z; 3%Z];
       names_file := Pickled ["bob"%string] |} =
  Ok (false, O,
      {| known_encodings := [2%Z; 3%Z]; known_names := ["bob"%string] |},
      {| encodings_file := Pickled [2%Z; 3%Z];
         names_file := Pickled ["bob"%string] |}).
Proof.
  apply (remove_twice SaveCompleted SaveCompleted "alice"%string
           {| known_encodings := [1%Z; 2%Z; 3%Z];
              known_names := ["alice"; "bob"]%string |}
           {| encodings_file := Missing; names_file := Missing |}
           true 1%nat).
  reflexivity.
Defined.

Lemma removed_person_not_matched_witness :
  "Unknown"%string <> "alice"%string.
Proof.
  apply (removed_person_not_matched zdist SaveCompleted "alice"%string
           {| known_encodings := [1%Z; 2%Z]; known_names := ["alice"; "bob"]%string |}
           {| encodings_file := Missing; names_file := Missing |}
           true 1%nat
           {| known_encodings := [2%Z]; known_names := ["bob"%string] |}
           {| encodings_file := Pickled [2%Z]; names_file := Pickled ["bob"%string] |}
           Config.FACE_RECOGNITION_TOLERANCE 1%Z Unknown 0).
  - reflexivity.
  - discriminate.
  - reflexivity.
  - reflexivity.
Defined.

Lemma reregister_replaces_witness :
  entries (add_person SaveCompleted "alice" [Some [7%Z]]
             {| known_encodings := [2%Z]; known_names := ["bob"%string] |}
             {| encodings_file := Pickled [2%Z];
                names_file := Pickled ["bob"%string] |}).1.2 =
  [("bob"%string, 2%Z); ("alice"%string, 7%Z)].
Proof.
  destruct (reregister_replaces SaveCompleted SaveCompleted "alice"%string
              [Some [7%Z]]
              {| known_encodings := [1%Z; 2%Z]; known_names := ["alice"; "bob"]%string |}
              {| encodings_file := Missing; names_file := Missing |}
              true 1%nat
              {| known_encodings := [2%Z]; known_names := ["bob"%string] |}
              {| encodings_file := Pickled [2%Z]; names_file := Pickled ["bob"%string] |})
    as [Hent _].
  - reflexivity.
  - reflexivity.
  - exact Hent.
Defined.

(** A small writable database: "alice" is in the directory and was seen
    at 10:00:00 of day 0. *)
Lemma delete_user_spec_witness :
  let db0 :=
    {| users := [{| user_id := 1; user_name := "alice" |}];
       attendance := [{| att_user_id := Some 1%Z; att_name := "alice";
                         att_timestamp := 36000; att_date := 0;
                         att_confidence := Some (9 # 10) |}];
       csv_log := []; db_writable := true; csv_writable := true;
       clock := clock_of [] |} in
  (delete_user "alice" db0).2 = Ok true /\
  attendance (delete_user "alice" db0).1 = [].
Proof.
  intros db0.
  destruct (delete_user_spec "alice"%string db0 eq_refl) as (Hres & Hatt & _).
  split; [exact Hres | exact Hatt].
Defined.

Lemma first_attendance_is_recorded_witness :
  (mark_attendance "bob" (Some (9 # 10))
     (fresh_database (clock_of [36000900000%Z; 36000900150%Z]))).2 =
  Ok (true, marked_successfully).
Proof.
  destruct (first_attendance_is_recorded "bob"%string (Some (9 # 10))
              (fresh_database (clock_of [36000900000%Z; 36000900150%Z])))
    as [Hres _].
  - reflexivity.
  - reflexivity.
  - reflexivity.
  - exact Hres.
Defined.

Lemma delete_then_mark_witness :
  let db0 :=
    {| users := [{| user_id := 1; user_name := "alice" |}];
       attendance := [{| att_user_id := Some 1%Z; att_name := "alice";
                         att_timestamp := 36000; att_date := 0;
                         att_confidence := Some (9 # 10) |}];
       csv_log := []; db_writable := true; csv_writable := true;
       clock := clock_of [36001000000%Z; 36001000150%Z] |} in
  (mark_attendance "alice" (Some (9 # 10)) (delete_user "alice" db0).1).2 =
  Ok (true, marked_successfully).
Proof.
  intros db0.
  destruct (delete_then_mark "alice"%string (Some (9 # 10)) db0 eq_refl eq_refl)
    as [Hres _].
  exact Hres.
Defined.

Lemma table_and_log_stay_in_step_witness :
  mirrored (mark_attendance "bob" (Some (9 # 10))
              (fresh_database (clock_of [36000900000%Z; 36000900150%Z]))).1.
Proof.
  destruct (table_and_log_stay_in_step "bob"%string (Some (9 # 10))
              (fresh_database (clock_of [36000900000%Z; 36000900150%Z])) eq_refl)
    as [Hmirror _].
  apply Hmirror. reflexivity.
Defined.

Lemma csv_failure_leaves_row_witness :
  let db0 :=
    {| users := []; attendance := []; csv_log := [];
       db_writable := true; csv_writable := false;
       clock := clock_of [36000900000%Z; 36000900150%Z;
                          36060000000%Z; 36060000150%Z] |} in
  (mark_attendance "bob" (Some (9 # 10)) db0).2 = Raise OSError /\
  (mark_attendance "bob" (Some (9 # 10))
     (mark_attendance "bob" (Some (9 # 10)) db0).1).2 = Ok (false, already_marked).
Proof.
  intros db0.
  destruct (csv_failure_leaves_row "bob"%string (Some (9 # 10)) db0)
    as (Hres & _ & _ & Hretry).
  - reflexivity.
  - reflexivity.
  - reflexivity.
  - split; [exact Hres|].
    destruct (Hretry (Some (9 # 10))) as [Hres' _]; [reflexivity | exact Hres'].
Defined.

Lemma recency_check_properties_witness :
  (is_recent_attendance "bob" 5
     (fresh_database (clock_of [36000900000%Z]))).1 = false.
Proof.
  destruct (recency_check_properties "bob"%string 5
              (fresh_database (clock_of [36000900000%Z])))
    as (_ & _ & _ & Hnone & _).
  - unfold four_digit_year. vm_compute. split; [discriminate | reflexivity].
  - apply Hnone. intros H. inversion H.
Defined.

(** Three days of chart on day 2, 10:00:00: "alice" was seen twice on day
    1, and nobody on day 0 or day 2.  A chart of -3000000 days would start
    after the year 9999. *)
Lemma chart_spec_witness :
  let db0 :=
    {| users := [];
       attendance := [{| att_user_id := None; att_name := "alice";
                         att_timestamp := 122400; att_date := 1;
                         att_confidence := Some (9 # 10) |};
                      {| att_user_id := None; att_name := "alice";
                         att_timestamp := 126000; att_date := 1;
                         att_confidence := Some (8 # 10) |}];
       csv_log := []; db_writable := true; csv_writable := true;
       clock := clock_of [208800000000%Z] |} in
  (api_attendance_chart 3 db0).1 = Fits [(0%Z, 0%nat); (1%Z, 2%nat); (2%Z, 0%nat)] /\
  (api_attendance_chart (-3000000) db0).1 = OverflowError.
Proof.
  intros db0.
  assert (Hnow : four_digit_year (now_at (clock db0) (reads (clock db0)))).
  { unfold four_digit_year. vm_compute. split; [discriminate | reflexivity]. }
  split.
  - destruct (chart_spec 3 db0 Hnow) as [Hchart _].
    rewrite Hchart; [reflexivity|].
    vm_compute. split; discriminate.
  - destruct (chart_spec (-3000000) db0 Hnow) as [_ Hraise].
    rewrite Hraise; [reflexivity|].
    vm_compute. intros [_ H]. apply H. reflexivity.
Defined.

(** After a restart: the map is empty, the table holds "bob" at 10:00:00,
    and "bob" is seen again one minute later. *)
Lemma durable_suppression_keeps_map_witness :
  let db1 :=
    {| users := [];
       attendance := [{| att_user_id := None; att_name := "bob";
                         att_timestamp := 36000; att_date := 0;
                         att_confidence := Some (9 # 10) |}];
       csv_log := []; db_writable := true; csv_writable := true;
       clock := clock_of [36060000000%Z; 36060000150%Z] |} in
  let out := process_face Config.CONFIDENCE_THRESHOLD
               Config.ATTENDANCE_COOLDOWN_MINUTES 1000 (fresh_system db1)
               "bob" (9 # 10) in
  out.2 = Ok tt /\ last_attendance out.1 = ∅ /\
  attendance (db out.1) = attendance db1.
Proof.
  intros db1 out.
  destruct (durable_suppression_keeps_map Config.CONFIDENCE_THRESHOLD
              Config.ATTENDANCE_COOLDOWN_MINUTES 1000 (fresh_system db1)
              "bob"%string (9 # 10))
    as (Hres & Hmap & Hrows & _).
  - discriminate.
  - vm_compute. discriminate.
  - reflexivity.
  - vm_compute. discriminate.
  - split; [exact Hres|]. split; [exact Hmap | exact Hrows].
Defined.

Lemma cooldown_map_changes_only_on_recording_witness :
  let s := fresh_system (fresh_database (clock_of [36000900000%Z; 36000900150%Z])) in
  let out := process_faces Config.CONFIDENCE_THRESHOLD
               Config.ATTENDANCE_COOLDOWN_MINUTES 1000 s
               [(Unknown, 0); ("bob"%string, 9 # 10)] in
  last_attendance out.1 !! "alice"%string = None.
Proof.
  intros s out.
  destruct (cooldown_map_changes_only_on_recording Config.CONFIDENCE_THRESHOLD
              Config.ATTENDANCE_COOLDOWN_MINUTES 1000
              [(Unknown, 0); ("bob"%string, 9 # 10)] s out.1 out.2
              (surjective_pairing _) "alice"%string)
    as [Hsame | (_ & c & Hin & _)].
  - rewrite Hsame. reflexivity.
  - exfalso. apply list_elem_of_In in Hin. simpl in Hin.
    destruct Hin as [Hin | [Hin | []]]; discriminate.
Defined.

Lemma once_per_frame_witness :
  let s := fresh_system (fresh_database
             (clock_of [36000900000%Z; 36000900150%Z;
                        36000900300%Z; 36000900450%Z])) in
  let out := process_attendance Config.CONFIDENCE_THRESHOLD
               Config.ATTENDANCE_COOLDOWN_MINUTES 1000 s
               ["bob"; "bob"]%string [9 # 10; 8 # 10] in
  (length (filter (fun x => att_name x = "bob"%string)
             (drop (length (attendance (db s))) (attendance (db out.1)))) <= 1)%nat.
Proof.
  intros s out.
  destruct (once_per_frame Config.CONFIDENCE_THRESHOLD
              Config.ATTENDANCE_COOLDOWN_MINUTES 1000 s
              ["bob"; "bob"]%string [9 # 10; 8 # 10] out.1 out.2 "bob"%string)
    as [_ Hone].
  - reflexivity.
  - apply surjective_pairing.
  - exact Hone.
Defined.

Lemma delete_route_spec_witness :
  let db0 :=
    {| users := [{| user_id := 1; user_name := "alice" |}];
       attendance := []; csv_log := []; db_writable := true;
       csv_writable := true; clock := clock_of [] |} in
  (delete_user_route SaveCompleted "alice" db0
     {| known_encodings := [1%Z; 2%Z]; known_names := ["alice"; "bob"]%string |}
     {| encodings_file := Missing; names_file := Missing |}).1.1.1 = FlashDeleted.
Proof.
  intros db0.
  destruct (delete_route_spec SaveCompleted "alice"%string db0
              {| known_encodings := [1%Z; 2%Z]; known_names := ["alice"; "bob"]%string |}
              {| encodings_file := Missing; names_file := Missing |} eq_refl)
    as [Hw _].
  destruct (Hw eq_refl) as [Hflash _]. exact Hflash.
Defined.

Lemma capture_paths_spec_witness :
  let frames := [ {| read_ok := true; faces_in_frame := 1; key_pressed := KeySpace |};
                  {| read_ok := true; faces_in_frame := 0; key_pressed := KeyQuit |} ] in
  capture_face_samples ["datasets"%string] (fun _ => CameraOpened) "dave" 10 frames =
  Some [["datasets"; "DirectShow"; "DirectShow_1.jpg"]%string].
Proof.
  intros frames.
  destruct (capture_paths_spec ["datasets"%string] (fun _ => CameraOpened)
              "carol"%string 10 frames
              [["datasets"; "DirectShow"; "DirectShow_1.jpg"]%string] eq_refl)
    as [[Hnone _] | (k & b & _ & _ & _ & _ & _ & Hany)].
  - exfalso. apply (Hnone 0%nat); [lia | reflexivity].
  - exact (Hany "dave"%string).
Defined.

Lemma capture_completes_witness :
  exists paths,
    capture_face_samples ["datasets"%string]
      (fun k => if (k =? 2)%nat then CameraOpened else CameraClosed)
      "carol" 2
      [ {| read_ok := true; faces_in_frame := 1; key_pressed := KeySpace |};
        {| read_ok := true; faces_in_frame := 0; key_pressed := KeySpace |};
        {| read_ok := true; faces_in_frame := 2; key_pressed := KeySpace |} ]
      = Some paths /\ length paths = 2%nat.
Proof.
  apply (capture_completes ["datasets"%string]
           (fun k => if (k =? 2)%nat then CameraOpened else CameraClosed)
           "carol"%string 2%nat).
  - exists 2%nat. split; [lia | reflexivity].
  - repeat constructor; discriminate.
  - vm_compute. lia.
Defined.

Lemma frame_skipping_witness :
  let st := {| system := fresh_system (fresh_database (clock_of []));
               frame_count := 0; fps_start_time := 0; screenshots := 0 |} in
  let turn faces key := {| grabbed := Some faces; process_time := 1000;
                           fps_time := 1; pressed := key |} in
  let face_model := {| known_encodings := [0%Z]; known_names := ["alice"%string] |} in
  run_from zdist face_model Config.FACE_RECOGNITION_TOLERANCE
    Config.CONFIDENCE_THRESHOLD Config.ATTENDANCE_COOLDOWN_MINUTES st
    [turn [] PressOther; turn [] PressQ] =
  run_from zdist face_model Config.FACE_RECOGNITION_TOLERANCE
    Config.CONFIDENCE_THRESHOLD Config.ATTENDANCE_COOLDOWN_MINUTES st
    [turn [0%Z] PressOther; turn [0%Z] PressQ].
Proof.
  intros st turn face_model.
  destruct (frame_skipping zdist face_model Config.FACE_RECOGNITION_TOLERANCE
              Config.CONFIDENCE_THRESHOLD Config.ATTENDANCE_COOLDOWN_MINUTES
              (fun _ => []) [turn [0%Z] PressOther; turn [0%Z] PressQ])
    as [Hsame _].
  exact (Hsame st).
Defined.

Lemma reset_key_forgets_witness :
  let st := {| system := {| last_attendance := {["bob"%string := 0]};
                            db := fresh_database (clock_of []); trace := [] |};
               frame_count := 0; fps_start_time := 0; screenshots := 0 |} in
  let inp := {| grabbed := Some [0%Z]; process_time := 1000;
                fps_time := 1; pressed := PressR |} in
  let face_model := {| known_encodings := [0%Z]; known_names := ["bob"%string] |} in
  match run_turn zdist face_model Config.FACE_RECOGNITION_TOLERANCE
          Config.CONFIDENCE_THRESHOLD Config.ATTENDANCE_COOLDOWN_MINUTES st inp with
  | GoOn st' => last_attendance (system st') = ∅
  | _ => False
  end.
Proof.
  intros st inp face_model.
  destruct (run_turn zdist face_model Config.FACE_RECOGNITION_TOLERANCE
              Config.CONFIDENCE_THRESHOLD Config.ATTENDANCE_COOLDOWN_MINUTES st inp)
    as [st'| |] eqn:E.
  - destruct (reset_key_forgets zdist face_model Config.FACE_RECOGNITION_TOLERANCE
                Config.CONFIDENCE_THRESHOLD Config.ATTENDANCE_COOLDOWN_MINUTES
                st st' inp eq_refl E) as [Hmap _].
    exact Hmap.
  - vm_compute in E. discriminate E.
  - vm_compute in E. discriminate E.
Defined.
